(** * SB-finance: client-side encryption layer ([static/js/crypto.js])

    A shallow embedding of [CryptoManager], [EncryptionStorage] and
    [EncryptedFetch], together with the browser primitives they call
    ([btoa]/[atob], [TextEncoder]/[TextDecoder], [localStorage], [Response]).

    Conventions.
    - A JavaScript string is the list of its UTF-16 code units ([list N]).
    - A [Uint8Array]/[ArrayBuffer] is a [list byte].
    - A thrown exception is the [Err] case of [Result]; [try/catch] is
      [try_catch].
    - [console.error] has no effect on results and is left out. *)

From Stdlib Require Import NArith ZArith QArith Qround Lia Lqa List Bool.
From Stdlib Require Strings.Byte Strings.String Strings.Ascii.
From Stdlib Require Import Floats.SpecFloat.
From stdpp Require Import base option list strings gmap.

Local Open Scope N_scope.

Abbreviation byte := Byte.byte.
(** A JavaScript string: its UTF-16 code units. *)
Abbreviation jsstring := (list N).

(** ** Bytes *)

#[export] Instance byte_eq_dec : EqDecision byte := Byte.byte_eq_dec.

(** Storing a number into a [Uint8Array] slot keeps its low eight bits. *)
Definition byte_of_N (n : N) : byte :=
  match Byte.of_N (n mod 256) with
  | Some b => b
  | None => Byte.x00
  end.

Definition String_fromCharCode (n : N) : N := n mod 65536.

(** ** UTF-16 / UTF-8 conversions ([TextEncoder], [TextDecoder]) *)

Module Utf.

Definition is_lead (c : N) : bool := (0xD800 <=? c) && (c <=? 0xDBFF).
Definition is_trail (c : N) : bool := (0xDC00 <=? c) && (c <=? 0xDFFF).

(** Conversion of a JavaScript string to a sequence of scalar values:
    a surrogate pair is one code point, an unpaired surrogate becomes
    U+FFFD. *)
Fixpoint to_scalars (s : jsstring) : list N :=
  match s with
  | [] => []
  | c :: rest =>
      if is_lead c then
        match rest with
        | d :: rest' =>
            if is_trail d
            then (0x10000 + N.shiftl (c - 0xD800) 10 + (d - 0xDC00)) :: to_scalars rest'
            else 0xFFFD :: to_scalars rest
        | [] => [0xFFFD]
        end
      else if is_trail c then 0xFFFD :: to_scalars rest
      else c :: to_scalars rest
  end.

(** The code units of one code point. *)
Definition of_scalar (cp : N) : jsstring :=
  if cp <=? 0xFFFF then [cp]
  else [0xD800 + N.shiftr (cp - 0x10000) 10; 0xDC00 + N.land (cp - 0x10000) 0x3FF].

(** UTF-8 encoder, one code point. *)
Definition encode_cp (cp : N) : list byte :=
  if cp <=? 0x7F then [byte_of_N cp]
  else if cp <=? 0x7FF then
    [byte_of_N (N.lor 0xC0 (N.shiftr cp 6));
     byte_of_N (N.lor 0x80 (N.land cp 0x3F))]
  else if cp <=? 0xFFFF then
    [byte_of_N (N.lor 0xE0 (N.shiftr cp 12));
     byte_of_N (N.lor 0x80 (N.land (N.shiftr cp 6) 0x3F));
     byte_of_N (N.lor 0x80 (N.land cp 0x3F))]
  else
    [byte_of_N (N.lor 0xF0 (N.shiftr cp 18));
     byte_of_N (N.lor 0x80 (N.land (N.shiftr cp 12) 0x3F));
     byte_of_N (N.lor 0x80 (N.land (N.shiftr cp 6) 0x3F));
     byte_of_N (N.lor 0x80 (N.land cp 0x3F))].

(** State of the UTF-8 decoder. *)
Record dstate := DState {
  d_cp : N;        (* code point being assembled *)
  d_seen : N;      (* continuation bytes seen *)
  d_needed : N;    (* continuation bytes needed *)
  d_lower : N;     (* lower boundary of the next byte *)
  d_upper : N      (* upper boundary of the next byte *)
}.

Definition d_init : dstate := DState 0 0 0 0x80 0xBF.

(** A byte read when no continuation byte is expected. *)
Definition lead (b : N) : dstate * list N :=
  if b <=? 0x7F then (d_init, [b])
  else if (0xC2 <=? b) && (b <=? 0xDF) then
    (DState (N.land b 0x1F) 0 1 0x80 0xBF, [])
  else if (0xE0 <=? b) && (b <=? 0xEF) then
    (DState (N.land b 0xF) 0 2
            (if b =? 0xE0 then 0xA0 else 0x80)
            (if b =? 0xED then 0x9F else 0xBF), [])
  else if (0xF0 <=? b) && (b <=? 0xF4) then
    (DState (N.land b 0x7) 0 3
            (if b =? 0xF0 then 0x90 else 0x80)
            (if b =? 0xF4 then 0x8F else 0xBF), [])
  else (d_init, [0xFFFD]).

(** One byte through the decoder.  A byte outside the expected range ends
    the sequence with U+FFFD and is then read again as a first byte. *)
Definition step (st : dstate) (b : N) : dstate * list N :=
  if d_needed st =? 0 then lead b
  else if negb ((d_lower st <=? b) && (b <=? d_upper st)) then
    let '(st', out) := lead b in (st', 0xFFFD :: out)
  else
    let cp := N.lor (N.shiftl (d_cp st) 6) (N.land b 0x3F) in
    if d_seen st + 1 =? d_needed st then (d_init, [cp])
    else (DState cp (d_seen st + 1) (d_needed st) 0x80 0xBF, []).

Fixpoint run (st : dstate) (bs : list byte) : list N :=
  match bs with
  | [] => if d_needed st =? 0 then [] else [0xFFFD]
  | b :: rest =>
      let '(st', out) := step st (Byte.to_N b) in
      out ++ run st' rest
  end.

(** A leading U+FEFF is dropped ([ignoreBOM] is false by default). *)
Definition strip_bom (cps : list N) : list N :=
  match cps with
  | c :: rest => if c =? 0xFEFF then rest else cps
  | [] => []
  end.

(** A string no code unit of which is an unpaired surrogate. *)
Fixpoint well_formed (s : jsstring) : bool :=
  match s with
  | [] => true
  | c :: rest =>
      if is_lead c then
        match rest with
        | d :: rest' => is_trail d && well_formed rest'
        | [] => false
        end
      else negb (is_trail c) && (c <? 0x10000) && well_formed rest
  end.

(** A Unicode scalar value. *)
Definition scalar (cp : N) : Prop :=
  cp < 0x110000 /\ ~ (0xD800 <= cp <= 0xDFFF).

End Utf.

(** [new TextEncoder().encode(s)] *)
Definition TextEncoder_encode (s : jsstring) : list byte :=
  flat_map Utf.encode_cp (Utf.to_scalars s).

(** [new TextDecoder().decode(bytes)]: UTF-8, not fatal, BOM dropped. *)
Definition TextDecoder_decode (bs : list byte) : jsstring :=
  flat_map Utf.of_scalar (Utf.strip_bom (Utf.run Utf.d_init bs)).

(** A string literal of the source, written in this file as UTF-8. *)
Definition js (s : String.string) : jsstring :=
  TextDecoder_decode (String.list_byte_of_string s).
Arguments js _%_string.

(** The same, with ['] written for the double quote. *)
Definition jsq (s : String.string) : jsstring :=
  map (fun c => if c =? 39 then 34 else c) (js s).
Arguments jsq _%_string.

(** ** Exceptions and results *)

Inductive exn : Type :=
| Error (message : jsstring)        (* [throw new Error(message)] *)
| TypeError
| SyntaxError
| RangeError
| DOMException (name : jsstring).   (* raised by the platform *)

Inductive Result (A : Type) : Type :=
| Ok (a : A)
| Err (e : exn).
Arguments Ok {A} a.
Arguments Err {A} e.

Definition InvalidCharacterError : exn := DOMException (js "InvalidCharacterError").
Definition OperationError : exn := DOMException (js "OperationError").
Definition DataError : exn := DOMException (js "DataError").

Definition rbind {A B} (r : Result A) (f : A -> Result B) : Result B :=
  match r with
  | Ok a => f a
  | Err e => Err e
  end.

(** ** Base64 ([btoa], [atob]) *)

Module Base64.

(** The character of a six-bit value: [A-Z], [a-z], [0-9], [+], [/]. *)
Definition char_of (i : N) : N :=
  if i <? 26 then 65 + i
  else if i <? 52 then 97 + (i - 26)
  else if i <? 62 then 48 + (i - 52)
  else if i =? 62 then 43
  else 47.

Definition index_of (c : N) : option N :=
  if (65 <=? c) && (c <=? 90) then Some (c - 65)
  else if (97 <=? c) && (c <=? 122) then Some (c - 97 + 26)
  else if (48 <=? c) && (c <=? 57) then Some (c - 48 + 52)
  else if c =? 43 then Some 62
  else if c =? 47 then Some 63
  else None.

Definition pad : N := 61.  (* [=] *)

(** The four six-bit values of three bytes. *)
Definition sextet1 (a : N) : N := N.shiftr a 2.
Definition sextet2 (a b : N) : N := N.lor (N.shiftl (N.land a 3) 4) (N.shiftr b 4).
Definition sextet3 (b c : N) : N := N.lor (N.shiftl (N.land b 15) 2) (N.shiftr c 6).
Definition sextet4 (c : N) : N := N.land c 63.

(** Three bytes give four characters; a last group of one or two bytes is
    completed with zero bits and padded with [=]. *)
Fixpoint encode (bs : list byte) : jsstring :=
  match bs with
  | [] => []
  | [a] =>
      let a := Byte.to_N a in
      [char_of (sextet1 a); char_of (sextet2 a 0); pad; pad]
  | [a; b] =>
      let a := Byte.to_N a in
      let b := Byte.to_N b in
      [char_of (sextet1 a); char_of (sextet2 a b); char_of (sextet3 b 0); pad]
  | a :: b :: c :: rest =>
      let a := Byte.to_N a in
      let b := Byte.to_N b in
      let c := Byte.to_N c in
      char_of (sextet1 a) :: char_of (sextet2 a b)
      :: char_of (sextet3 b c) :: char_of (sextet4 c)
      :: encode rest
  end.

(** The characters of [encode] that are not padding, and the padding. *)
Fixpoint unpadded (bs : list byte) : jsstring :=
  match bs with
  | [] => []
  | [a] => [char_of (sextet1 (Byte.to_N a)); char_of (sextet2 (Byte.to_N a) 0)]
  | [a; b] =>
      [char_of (sextet1 (Byte.to_N a));
       char_of (sextet2 (Byte.to_N a) (Byte.to_N b));
       char_of (sextet3 (Byte.to_N b) 0)]
  | a :: b :: c :: rest =>
      char_of (sextet1 (Byte.to_N a))
      :: char_of (sextet2 (Byte.to_N a) (Byte.to_N b))
      :: char_of (sextet3 (Byte.to_N b) (Byte.to_N c))
      :: char_of (sextet4 (Byte.to_N c))
      :: unpadded rest
  end.

Fixpoint padding (bs : list byte) : jsstring :=
  match bs with
  | [] => []
  | [_] => [pad; pad]
  | [_; _] => [pad]
  | _ :: _ :: _ :: rest => padding rest
  end.

(** A character of the alphabet. *)
Definition valid (c : N) : bool := bool_decide (is_Some (index_of c)).

Definition is_ascii_whitespace (c : N) : bool :=
  (c =? 9) || (c =? 10) || (c =? 12) || (c =? 13) || (c =? 32).

(** When the length is a multiple of four, one or two trailing [=] are
    removed. *)
Definition strip_padding (d : jsstring) : jsstring :=
  if N.of_nat (length d) mod 4 =? 0 then
    match rev d with
    | c1 :: r1 =>
        if c1 =? pad then
          match r1 with
          | c2 :: r2 => if c2 =? pad then rev r2 else rev r1
          | [] => rev r1
          end
        else d
    | [] => d
    end
  else d.

(** The decoding loop: six bits per character go into a buffer, every
    24 bits give three bytes; 12 or 18 left-over bits give one or two. *)
Fixpoint decode_loop (buf : N) (nbits : N) (d : jsstring) : list byte :=
  match d with
  | [] =>
      if nbits =? 12 then [byte_of_N (N.shiftr buf 4)]
      else if nbits =? 18 then [byte_of_N (N.shiftr buf 10); byte_of_N (N.shiftr buf 2)]
      else []
  | c :: rest =>
      let buf' := N.lor (N.shiftl buf 6) (default 0 (index_of c)) in
      if nbits + 6 =? 24 then
        byte_of_N (N.shiftr buf' 16) :: byte_of_N (N.shiftr buf' 8) :: byte_of_N buf'
        :: decode_loop 0 0 rest
      else decode_loop buf' (nbits + 6) rest
  end.

(** Forgiving base64 decoding; [None] is failure. *)
Definition decode (data : jsstring) : option (list byte) :=
  let d := filter (fun c => is_ascii_whitespace c = false) data in
  let d := strip_padding d in
  if N.of_nat (length d) mod 4 =? 1 then None
  else if forallb valid d
       then Some (decode_loop 0 0 d)
       else None.

End Base64.

(** [btoa(s)]: throws when a code unit is above U+00FF. *)
Definition btoa (s : jsstring) : Result jsstring :=
  if forallb (fun c => c <=? 255) s
  then Ok (Base64.encode (map byte_of_N s))
  else Err InvalidCharacterError.

(** [atob(s)]: the result is a string of code units below 256. *)
Definition atob (s : jsstring) : Result jsstring :=
  match Base64.decode s with
  | Some bs => Ok (map Byte.to_N bs)
  | None => Err InvalidCharacterError
  end.

(** ** Values returned by [JSON.parse] *)

#[warnings="-register-all"]
Inductive json : Type :=
| JNull
| JBool (b : bool)
| JNum (x : spec_float)
| JStr (s : jsstring)
| JArr (items : list json)
| JObj (fields : list (jsstring * json)).

(** [ToBoolean] *)
Definition truthy (v : json) : bool :=
  match v with
  | JNull => false
  | JBool b => b
  | JNum (S754_zero _) | JNum S754_nan => false
  | JNum _ => true
  | JStr s => negb (bool_decide (s = []))
  | JArr _ | JObj _ => true
  end.

(** A property read; [None] is [undefined]. *)
Definition truthy_opt (v : option json) : bool :=
  match v with
  | Some v => truthy v
  | None => false
  end.

(** [v.name] for the names the source reads ([encrypted], [data]): reading
    a property of [null] throws, an object gives its field, and no other
    value has a property of that name. *)
Definition get_prop (v : json) (name : jsstring) : Result (option json) :=
  match v with
  | JNull => Err TypeError
  | JObj fields =>
      Ok (snd <$> find (fun kv => bool_decide (fst kv = name)) fields)
  | _ => Ok None
  end.

(** ** Requests and responses of [fetch] *)

Inductive Body : Type :=
| BodyAbsent                      (* [undefined] or [null] *)
| BodyString (s : jsstring)
| BodyOther (tag : N).            (* FormData, Blob, ArrayBuffer, ... *)

Record RequestInit := mkInit {
  body : Body;
  headers : option (gmap jsstring jsstring);
  init_rest : list (jsstring * jsstring)   (* method, credentials, ... *)
}.

Record Response := mkResponse {
  status : N;
  statusText : jsstring;
  resp_headers : list (jsstring * jsstring);
  resp_body : list byte;
  bodyUsed : bool
}.

Definition ascii_lower (c : N) : N :=
  if (65 <=? c) && (c <=? 90) then c + 32 else c.

Fixpoint join (sep : jsstring) (parts : list jsstring) : jsstring :=
  match parts with
  | [] => []
  | [x] => x
  | x :: rest => x ++ sep ++ join sep rest
  end.

(** [headers.get(name)]: names compare without case, several values are
    joined by a comma and a space, [None] is [null]. *)
Definition Headers_get (h : list (jsstring * jsstring)) (name : jsstring) : option jsstring :=
  let lname := map ascii_lower name in
  match filter (fun kv => map ascii_lower (fst kv) = lname) h with
  | [] => None
  | found => Some (join (js ", ") (map snd found))
  end.

Fixpoint is_prefix (p s : jsstring) : bool :=
  match p, s with
  | [], _ => true
  | _ :: _, [] => false
  | a :: p', b :: s' => (a =? b) && is_prefix p' s'
  end.

(** [s.includes(sub)] *)
Fixpoint includes (s sub : jsstring) : bool :=
  is_prefix sub s ||
  match s with
  | [] => false
  | _ :: s' => includes s' sub
  end.

(** [s.split(sep)] for a one-character separator; [cur] is the piece
    being read. *)
Fixpoint split_from (sep : N) (s cur : jsstring) : list jsstring :=
  match s with
  | [] => [cur]
  | c :: r => if c =? sep then cur :: split_from sep r [] else split_from sep r (cur ++ [c])
  end.

Definition split (s : jsstring) (sep : N) : list jsstring := split_from sep s [].

(** ** The host platform

    What the browser supplies and this repository does not define: the
    random sources, the [crypto.subtle] algorithms, [JSON] and the network.
    The development is parametric in it. *)

Record Pbkdf2Params := mkPbkdf2 {
  pb_salt : list byte;
  pb_iterations : N;
  pb_hash : jsstring
}.

Record Platform := mkPlatform {
  (** [crypto.subtle] is present (a secure context); [isSupported()]. *)
  subtle_available : bool;
  (** The stream [crypto.getRandomValues] and key generation read. *)
  random_byte : N -> byte;
  (** The stream of [Math.random()] results. *)
  math_random : N -> Q;
  (** Raw key material [importKey] accepts for AES-GCM. *)
  aes_key_ok : list byte -> bool;
  (** AES-GCM with the default 128-bit tag: key, IV, data. *)
  aes_gcm_encrypt : list byte -> list byte -> list byte -> option (list byte);
  aes_gcm_decrypt : list byte -> list byte -> list byte -> option (list byte);
  (** [deriveBits] for PBKDF2: parameters, password, length in bits. *)
  pbkdf2_deriveBits : Pbkdf2Params -> list byte -> N -> option (list byte);
  JSON_parse : jsstring -> option json;
  JSON_stringify : json -> jsstring;
  Number_toString : spec_float -> jsstring;
  (** The native [fetch]: requests sent so far, URL, options. *)
  network : list (jsstring * RequestInit) -> jsstring -> RequestInit -> Result Response
}.

(** ** The mutable world and the monad of effects *)

Record World := mkWorld {
  localStorage : gmap jsstring jsstring;
  entropy_used : N;      (* bytes read from the secure random stream *)
  random_used : N;       (* calls of [Math.random] *)
  sent : list (jsstring * RequestInit)   (* requests given to the native fetch *)
}.

Definition M (A : Type) : Type := World -> Result A * World.

#[export] Instance M_ret : MRet M := fun A a w => (Ok a, w).
#[export] Instance M_bind : MBind M := fun A B f m w =>
  match m w with
  | (Ok a, w') => f a w'
  | (Err e, w') => (Err e, w')
  end.

Definition throw {A} (e : exn) : M A := fun w => (Err e, w).
Definition lift {A} (r : Result A) : M A := fun w => (r, w).

(** [try { m } catch (e) { h e }] *)
Definition try_catch {A} (m : M A) (h : exn -> M A) : M A := fun w =>
  match m w with
  | (Ok a, w') => (Ok a, w')
  | (Err e, w') => h e w'
  end.

(** A computation that leaves the world as it found it. *)
Definition stateless {A} (m : M A) : Prop := forall w, (m w).2 = w.

#[export] Instance Result_ret : MRet Result := fun A a => Ok a.
#[export] Instance Result_bind : MBind Result := fun A B f r => rbind r f.

(** ** [Uint8Array] helpers *)

(** [new Uint8Array(n)] *)
Definition Uint8Array_new (n : nat) : list byte := replicate n Byte.x00.

(** [target.set(source, offset)]; a source that does not fit throws. *)
Definition Uint8Array_set (target source : list byte) (offset : nat) : Result (list byte) :=
  if bool_decide (offset + length source <= length target)%nat
  then Ok (take offset target ++ source ++ drop (offset + length source) target)
  else Err RangeError.

(** ** [class CryptoManager] *)

Record CryptoKey := mkKey {
  key_raw : list byte;
  extractable : bool
}.

Section CryptoManager.

Context (P : Platform).

(** [this.ivLength] *)
Definition ivLength : nat := 12.

(** *** Platform calls, as the source makes them *)

(** Any use of [crypto.subtle] throws where it is absent. *)
Definition subtle {A} (m : M A) : M A :=
  if subtle_available P then m else throw TypeError.

(** The next [n] bytes of the secure random stream, and the world once
    they are drawn. *)
Definition random_bytes (w : World) (n : nat) : list byte :=
  map (fun i => random_byte P (entropy_used w + N.of_nat i)) (seq 0 n).

Definition consume (w : World) (n : nat) : World :=
  mkWorld (localStorage w) (entropy_used w + N.of_nat n) (random_used w) (sent w).

(** [crypto.getRandomValues(new Uint8Array(n))] *)
Definition getRandomValues (n : nat) : M (list byte) := fun w =>
  (Ok (random_bytes w n), consume w n).

(** [crypto.subtle.generateKey({name: 'AES-GCM', length: 256}, extractable, usages)] *)
Definition subtle_generateKey (ext : bool) : M CryptoKey :=
  subtle (raw ← getRandomValues 32; mret (mkKey raw ext)).

(** [crypto.subtle.exportKey('raw', key)] *)
Definition subtle_exportKey (key : CryptoKey) : M (list byte) :=
  subtle (if extractable key then mret (key_raw key)
          else throw (DOMException (js "InvalidAccessError"))).

(** [crypto.subtle.importKey('raw', keyBuffer, {name: 'AES-GCM'}, ext, usages)] *)
Definition subtle_importKey (keyBuffer : list byte) (ext : bool) : M CryptoKey :=
  subtle (if aes_key_ok P keyBuffer then mret (mkKey keyBuffer ext)
          else throw DataError).

(** [crypto.subtle.encrypt({name: 'AES-GCM', iv}, key, data)] *)
Definition subtle_encrypt (iv : list byte) (key : CryptoKey) (data : list byte) : M (list byte) :=
  subtle (match aes_gcm_encrypt P (key_raw key) iv data with
          | Some ct => mret ct
          | None => throw OperationError
          end).

(** [crypto.subtle.decrypt({name: 'AES-GCM', iv}, key, data)] *)
Definition subtle_decrypt (iv : list byte) (key : CryptoKey) (data : list byte) : M (list byte) :=
  subtle (match aes_gcm_decrypt P (key_raw key) iv data with
          | Some pt => mret pt
          | None => throw OperationError
          end).

(** [crypto.subtle.importKey('raw', data, 'PBKDF2', false, ['deriveBits'])]
    followed by [crypto.subtle.deriveBits(params, keyMaterial, length)] *)
Definition subtle_importKey_PBKDF2 (data : list byte) : M (list byte) :=
  subtle (mret data).

Definition subtle_deriveBits (params : Pbkdf2Params) (keyMaterial : list byte) (len : N)
  : M (list byte) :=
  subtle (match pbkdf2_deriveBits P params keyMaterial len with
          | Some bits => mret bits
          | None => throw OperationError
          end).

(** The [i]-th next result of [Math.random()], and the world once [n]
    results are taken. *)
Definition next_random (w : World) (i : nat) : Q :=
  math_random P (random_used w + N.of_nat i).

Definition spend (w : World) (n : nat) : World :=
  mkWorld (localStorage w) (entropy_used w) (random_used w + N.of_nat n) (sent w).

(** [Math.random()] *)
Definition Math_random : M Q := fun w => (Ok (next_random w 0), spend w 1).

(** *** Methods *)

(** The loop appends one character per byte and hands the string to [btoa]. *)
Definition arrayBufferToBase64 (buffer : list byte) : Result jsstring :=
  let bytes := buffer in
  let binary :=
    fold_left (fun binary b => binary ++ [String_fromCharCode (Byte.to_N b)]) bytes [] in
  btoa binary.

(** The loop stores [binary.charCodeAt(i)] at index [i] of a fresh array. *)
Definition base64ToArrayBuffer (base64 : jsstring) : Result (list byte) :=
  binary ← atob base64;
  let bytes := Uint8Array_new (length binary) in
  mret (fold_left (fun bytes i => <[i := byte_of_N (binary !!! i)]> bytes)
                  (seq 0 (length binary)) bytes).

Definition generateKey : M jsstring :=
  try_catch
    (key ← subtle_generateKey true;
     exported ← subtle_exportKey key;
     lift (arrayBufferToBase64 exported))
    (fun _ => throw (Error (js "Не удалось сгенерировать ключ шифрования"))).

Definition importKey (base64Key : jsstring) : M CryptoKey :=
  try_catch
    (keyBuffer ← lift (base64ToArrayBuffer base64Key);
     subtle_importKey keyBuffer false)
    (fun _ => throw (Error (js "Неверный формат ключа шифрования"))).

Definition generateIV : M (list byte) := getRandomValues ivLength.

Definition encrypt (plaintext base64Key : jsstring) : M jsstring :=
  try_catch
    (key ← importKey base64Key;
     iv ← generateIV;
     let data := TextEncoder_encode plaintext in
     encrypted ← subtle_encrypt iv key data;
     let combined := Uint8Array_new (length iv + length encrypted) in
     combined ← lift (Uint8Array_set combined iv 0);
     combined ← lift (Uint8Array_set combined encrypted (length iv));
     lift (arrayBufferToBase64 combined))
    (fun _ => throw (Error (js "Не удалось зашифровать данные"))).

Definition decrypt (encryptedBase64 base64Key : jsstring) : M jsstring :=
  try_catch
    (key ← importKey base64Key;
     combined ← lift (base64ToArrayBuffer encryptedBase64);
     let combinedArray := combined in
     let iv := take ivLength combinedArray in
     let ciphertext := drop ivLength combinedArray in
     decrypted ← subtle_decrypt iv key ciphertext;
     mret (TextDecoder_decode decrypted))
    (fun _ => throw (Error (js "Не удалось расшифровать данные. Проверьте ключ."))).

Definition encryptObject (obj : json) (base64Key : jsstring) : M jsstring :=
  let json := JSON_stringify P obj in
  encrypt json base64Key.

Definition decryptObject (encryptedBase64 base64Key : jsstring) : M json :=
  json ← decrypt encryptedBase64 base64Key;
  match JSON_parse P json with
  | Some v => mret v
  | None => throw SyntaxError
  end.

Definition isSupported : bool := subtle_available P.

End CryptoManager.

(** The errors thrown by the [catch] blocks. *)
Definition msg_generateKey : exn := Error (js "Не удалось сгенерировать ключ шифрования").
Definition msg_importKey : exn := Error (js "Неверный формат ключа шифрования").
Definition msg_encrypt : exn := Error (js "Не удалось зашифровать данные").
Definition msg_decrypt : exn := Error (js "Не удалось расшифровать данные. Проверьте ключ.").

Section KeyDerivation.

Context (P : Platform).

(** The word list of [generateSeedPhrase], in source order. *)
Definition words : list jsstring :=
  [js "абрикос"; js "банан"; js "вишня"; js "груша"; js "дыня"; js "ежевика";
   js "жёлудь"; js "земляника";
   js "инжир"; js "йогурт"; js "каштан"; js "лимон"; js "манго"; js "нектарин";
   js "орех"; js "персик";
   js "рябина"; js "слива"; js "тыква"; js "урюк"; js "финик"; js "хурма";
   js "черешня"; js "яблоко";
   js "апельсин"; js "брусника"; js "виноград"; js "грейпфрут"; js "дыня";
   js "ежевика"; js "жимолость"; js "земляника"].

(** [array[i]] for an integral index: [None] is [undefined]. *)
Definition array_get {A} (l : list A) (i : Z) : option A :=
  if (i <? 0)%Z then None else l !! Z.to_nat i.

(** [Math.floor(Math.random() * words.length)] *)
Definition random_index (r : Q) : Z :=
  Qfloor (r * inject_Z (Z.of_nat (length words))).

(** The [for] loop: [n] more rounds, each pushing one word. *)
Fixpoint seed_loop (n : nat) (selected : list (option jsstring))
  : M (list (option jsstring)) :=
  match n with
  | O => mret selected
  | S n' =>
      r ← Math_random P;
      seed_loop n' (selected ++ [array_get words (random_index r)])
  end.

(** [selected.join(' ')]: an [undefined] element prints as nothing. *)
Definition generateSeedPhrase : M jsstring :=
  selected ← seed_loop 12 [];
  mret (join (js " ") (map (default []) selected)).

Definition seed_salt : list byte := TextEncoder_encode (js "sb_finance_salt_2024").

Definition seed_params : Pbkdf2Params := mkPbkdf2 seed_salt 100000 (js "SHA-256").

Definition deriveKeyFromSeed (seedPhrase : jsstring) : M jsstring :=
  let data := TextEncoder_encode seedPhrase in
  keyMaterial ← subtle_importKey_PBKDF2 P data;
  derivedBits ← subtle_deriveBits P seed_params keyMaterial 256;
  lift (arrayBufferToBase64 derivedBits).

End KeyDerivation.

(** ** [localStorage] *)

Definition localStorage_getItem (k : jsstring) : M (option jsstring) := fun w =>
  (Ok (localStorage w !! k), w).

Definition localStorage_setItem (k v : jsstring) : M unit := fun w =>
  (Ok tt, mkWorld (<[k := v]> (localStorage w)) (entropy_used w) (random_used w) (sent w)).

Definition localStorage_removeItem (k : jsstring) : M unit := fun w =>
  (Ok tt, mkWorld (delete k (localStorage w)) (entropy_used w) (random_used w) (sent w)).

(** ** [const EncryptionStorage] *)

Module EncryptionStorage.
Section Methods.

Context (P : Platform).

Definition encryption_key : jsstring := js "encryption_key".
Definition seed_phrase : jsstring := js "seed_phrase".

(** [!key]: [null] and the empty string are both falsy. *)
Definition getOrCreateKey : M jsstring :=
  key ← localStorage_getItem encryption_key;
  match key with
  | Some key =>
      if bool_decide (key = []) then
        key ← generateKey P;
        _ ← localStorage_setItem encryption_key key;
        mret key
      else mret key
  | None =>
      key ← generateKey P;
      _ ← localStorage_setItem encryption_key key;
      mret key
  end.

Definition saveKey (key : jsstring) : M unit :=
  localStorage_setItem encryption_key key.

Definition clearKey : M unit :=
  _ ← localStorage_removeItem encryption_key;
  localStorage_removeItem seed_phrase.

Definition saveSeedPhrase (seedPhrase : jsstring) : M unit :=
  localStorage_setItem seed_phrase seedPhrase.

Definition getSeedPhrase : M (option jsstring) :=
  localStorage_getItem seed_phrase.

Definition hasKey : M bool :=
  key ← localStorage_getItem encryption_key;
  mret (bool_decide (key ≠ None)).

End Methods.
End EncryptionStorage.

(** ** [class EncryptedFetch] *)

Record EncryptedFetch := mkFetch {
  encryptionEnabled : bool
}.

(** The constructor. *)
Definition EncryptedFetch_new : EncryptedFetch := mkFetch true.

Definition setEnabled (self : EncryptedFetch) (enabled : bool) : EncryptedFetch :=
  mkFetch enabled.

Section Fetch.

Context (P : Platform).

(** The world once a request is handed to the native [fetch]. *)
Definition logged (w : World) (url : jsstring) (options : RequestInit) : World :=
  mkWorld (localStorage w) (entropy_used w) (random_used w) (sent w ++ [(url, options)]).

(** The native [fetch(url, options)]. *)
Definition native_fetch (url : jsstring) (options : RequestInit) : M Response := fun w =>
  (network P (sent w) url options, logged w url options).

(** The same response once its body has been read. *)
Definition consumed (r : Response) : Response :=
  mkResponse (status r) (statusText r) (resp_headers r) (resp_body r) true.

(** [response.json()]: the body can be read once; the bytes are decoded as
    UTF-8 and parsed.  The response comes back with its body used. *)
Definition Response_json (r : Response) : M (json * Response) :=
  if bodyUsed r then throw TypeError
  else
    match JSON_parse P (TextDecoder_decode (resp_body r)) with
    | Some v => mret (v, consumed r)
    | None => throw SyntaxError
    end.

(** [response.headers.get('content-type')?.includes('application/json')] *)
Definition json_typed (r : Response) : bool :=
  match Headers_get (resp_headers r) (js "content-type") with
  | Some ct => includes ct (js "application/json")
  | None => false
  end.

Definition null_body_status (s : N) : bool :=
  (s =? 101) || (s =? 103) || (s =? 204) || (s =? 205) || (s =? 304).

(** [new Response(text, {status, statusText, headers})] *)
Definition Response_new (text : jsstring) (st : N) (stText : jsstring)
    (h : list (jsstring * jsstring)) : Result Response :=
  if negb ((200 <=? st) && (st <=? 599)) then Err RangeError
  else if null_body_status st then Err TypeError
  else
    let h' := match Headers_get h (js "content-type") with
              | Some _ => h
              | None => h ++ [(js "content-type", js "text/plain;charset=UTF-8")]
              end in
    Ok (mkResponse st stText h' (TextEncoder_encode text) false).

(** The string a value becomes when a string is expected, as [atob] does
    with its argument. *)
Fixpoint ToString (v : json) : jsstring :=
  match v with
  | JNull => js "null"
  | JBool true => js "true"
  | JBool false => js "false"
  | JNum x => Number_toString P x
  | JStr s => s
  | JArr items =>
      join (js ",") (map (fun x => match x with JNull => [] | _ => ToString x end) items)
  | JObj _ => js "[object Object]"
  end.

(** [{encrypted: true, data: encrypted}] *)
Definition transport_form (encrypted : jsstring) : json :=
  JObj [(js "encrypted", JBool true); (js "data", JStr encrypted)].

(** The assignments to [options.body] and [options.headers]. *)
Definition set_encrypted_body (options : RequestInit) (encrypted : jsstring) : RequestInit :=
  let options :=
    mkInit (BodyString (JSON_stringify P (transport_form encrypted)))
           (headers options) (init_rest options) in
  let options :=
    match headers options with
    | Some _ => options
    | None => mkInit (body options) (Some ∅) (init_rest options)
    end in
  mkInit (body options)
         (<[js "Content-Type" := js "application/json"]> <$> headers options)
         (init_rest options).

(** The request half of [fetch]: a non-empty string body is replaced by the
    transport form, any other body is left as it is. *)
Definition encrypt_request (options : RequestInit) (key : jsstring) : M RequestInit :=
  let originalBody := body options in
  match originalBody with
  | BodyString s =>
      if bool_decide (s = []) then mret options
      else
        try_catch
          (match JSON_parse P s with
           | None => throw SyntaxError
           | Some json =>
               encrypted ← encryptObject P json key;
               mret (set_encrypted_body options encrypted)
           end)
          (fun _ =>
             encrypted ← encrypt P s key;
             mret (set_encrypted_body options encrypted))
  | _ => mret options
  end.

(** The response half of [fetch]. *)
Definition decrypt_response (response : Response) (key : jsstring) : M Response :=
  if json_typed response then
    '(data, response) ← Response_json response;
    enc ← lift (get_prop data (js "encrypted"));
    (* [data.encrypted && data.data] *)
    cond ← (if truthy_opt enc then lift (get_prop data (js "data")) else mret enc);
    match cond with
    | Some d =>
        if truthy d then
          decrypted ← decryptObject P (ToString d) key;
          lift (Response_new (JSON_stringify P decrypted)
                             (status response) (statusText response)
                             (resp_headers response))
        else mret response
    | None => mret response
    end
  else mret response.

(** A readable response in the transport form, [d] being its [data]. *)
Definition enveloped (r : Response) (d : json) : Prop :=
  json_typed r = true /\ bodyUsed r = false /\
  exists data enc,
    JSON_parse P (TextDecoder_decode (resp_body r)) = Some data /\
    get_prop data (js "encrypted") = Ok (Some enc) /\ truthy enc = true /\
    get_prop data (js "data") = Ok (Some d) /\ truthy d = true.

(** A readable JSON response that is not in the transport form: [encrypted]
    or [data] is missing or falsy. *)
Definition plain_json (r : Response) (data : json) : Prop :=
  json_typed r = true /\ bodyUsed r = false /\
  JSON_parse P (TextDecoder_decode (resp_body r)) = Some data /\
  exists enc, get_prop data (js "encrypted") = Ok enc /\
    (truthy_opt enc = false \/
     exists d, get_prop data (js "data") = Ok d /\ truthy_opt d = false).

Definition fetch (self : EncryptedFetch) (url : jsstring) (options : RequestInit)
  : M Response :=
  if negb (encryptionEnabled self) then native_fetch url options
  else
    key ← EncryptionStorage.getOrCreateKey P;
    options ← encrypt_request options key;
    response ← native_fetch url options;
    decrypt_response response key.

End Fetch.

(** ** JSON documents as bytes *)

(** The bytes are a JSON document: the UTF-8 encoding of a text, itself
    free of unpaired surrogates, that [JSON.parse] accepts. *)
Definition json_document (P : Platform) (bs : list byte) : Prop :=
  exists s, Utf.well_formed s = true /\ TextEncoder_encode s = bs /\
            is_Some (JSON_parse P s).

(** ** Laws of the platform

    What the proofs below assume of the browser's algorithms. *)

Section Laws.

Context (P : Platform).

(** Decryption under the key and IV of an encryption gives the data back. *)
Definition aes_gcm_inverts : Prop :=
  forall k iv pt ct,
    aes_key_ok P k = true ->
    aes_gcm_encrypt P k iv pt = Some ct ->
    aes_gcm_decrypt P k iv ct = Some pt.

(** Encryption under an accepted key and a 96-bit IV succeeds. *)
Definition aes_gcm_encrypts : Prop :=
  forall k iv pt,
    aes_key_ok P k = true -> length iv = 12%nat ->
    is_Some (aes_gcm_encrypt P k iv pt).

(** The ciphertext is the data's length plus the 16-byte tag. *)
Definition aes_gcm_tagged : Prop :=
  forall k iv pt ct,
    aes_gcm_encrypt P k iv pt = Some ct ->
    length ct = (length pt + 16)%nat.

(** 256-bit keys are accepted. *)
Definition aes_256_accepted : Prop :=
  forall k, length k = 32%nat -> aes_key_ok P k = true.

(** PBKDF2 over SHA-256 with a positive iteration count gives the bits
    asked for. *)
Definition pbkdf2_derives : Prop :=
  forall params password len,
    pb_hash params = js "SHA-256" -> 0 < pb_iterations params -> len mod 8 = 0 ->
    exists bits, pbkdf2_deriveBits P params password len = Some bits
                 /\ N.of_nat (length bits) = len / 8.


(** Decryption rejects data too short to hold the 16-byte tag. *)
Definition aes_gcm_needs_tag : Prop :=
  forall k iv data,
    (length data < 16)%nat -> aes_gcm_decrypt P k iv data = None.

End Laws.

(** ** A reference platform

    A small interpretation of the platform, for running the model on
    concrete inputs: a keyed stream cipher with a 16-byte checksum stands in
    for AES-GCM, a checksum stretch for PBKDF2, and the JSON reader and
    writer cover [null], booleans, integers, strings, arrays and objects. *)

Module Reference.

Definition sum_bytes (bs : list byte) : N :=
  fold_left (fun acc b => (acc * 31 + Byte.to_N b + 7) mod 65521) bs 1.

Definition mix (k iv : list byte) (i : nat) : N :=
  (Byte.to_N (nth (i mod length k) k Byte.x00)
   + 7 * Byte.to_N (nth (i mod length iv) iv Byte.x00)
   + 13 * N.of_nat i + 1) mod 256.

Fixpoint mask (k iv : list byte) (i : nat) (data : list byte) : list byte :=
  match data with
  | [] => []
  | b :: rest => byte_of_N (Byte.to_N b + mix k iv i) :: mask k iv (S i) rest
  end.

Fixpoint unmask (k iv : list byte) (i : nat) (data : list byte) : list byte :=
  match data with
  | [] => []
  | b :: rest => byte_of_N (Byte.to_N b + 256 - mix k iv i) :: unmask k iv (S i) rest
  end.

Definition tag (k iv ct : list byte) : list byte :=
  let c := sum_bytes (k ++ iv ++ ct) in
  map (fun j => byte_of_N (c / (N.of_nat j + 1) + 17 * N.of_nat j)) (seq 0 16).

Definition key_ok (k : list byte) : bool :=
  bool_decide (length k = 16 \/ length k = 24 \/ length k = 32)%nat.

Definition seal (k iv pt : list byte) : option (list byte) :=
  let ct := mask k iv 0 pt in
  Some (ct ++ tag k iv ct).

Definition open (k iv data : list byte) : option (list byte) :=
  if bool_decide (length data < 16)%nat then None
  else
    let ct := take (length data - 16) data in
    let t := drop (length data - 16) data in
    if bool_decide (t = tag k iv ct) then Some (unmask k iv 0 ct) else None.

Definition stretch (params : Pbkdf2Params) (password : list byte) (len : N)
  : option (list byte) :=
  let c := sum_bytes (password ++ pb_salt params)
           + pb_iterations params + N.of_nat (length (pb_hash params)) in
  Some (map (fun j => byte_of_N (c / (N.of_nat j + 1) + 29 * N.of_nat j))
            (seq 0 (N.to_nat (len / 8)))).

(** *** Numbers: integers only *)

Definition number_of_Z (neg : bool) (n : Z) : spec_float :=
  if (n =? 0)%Z then S754_zero neg
  else binary_normalize 53 1024 (if neg then - n else n)%Z 0 false.

Fixpoint digits_of (u : Decimal.uint) : jsstring :=
  match u with
  | Decimal.Nil => []
  | Decimal.D0 u => 48 :: digits_of u
  | Decimal.D1 u => 49 :: digits_of u
  | Decimal.D2 u => 50 :: digits_of u
  | Decimal.D3 u => 51 :: digits_of u
  | Decimal.D4 u => 52 :: digits_of u
  | Decimal.D5 u => 53 :: digits_of u
  | Decimal.D6 u => 54 :: digits_of u
  | Decimal.D7 u => 55 :: digits_of u
  | Decimal.D8 u => 56 :: digits_of u
  | Decimal.D9 u => 57 :: digits_of u
  end.

Definition number_to_string (x : spec_float) : jsstring :=
  match x with
  | S754_zero _ => js "0"
  | S754_nan => js "NaN"
  | S754_infinity false => js "Infinity"
  | S754_infinity true => js "-Infinity"
  | S754_finite s m e =>
      let v := if (0 <=? e)%Z then Z.shiftl (Zpos m) e else Z.shiftr (Zpos m) (- e) in
      (if s then js "-" else []) ++ digits_of (N.to_uint (Z.to_N v))
  end.

(** *** JSON reader *)

Definition is_json_ws (c : N) : bool :=
  (c =? 32) || (c =? 10) || (c =? 13) || (c =? 9).

Fixpoint skip_ws (s : jsstring) : jsstring :=
  match s with
  | c :: r => if is_json_ws c then skip_ws r else s
  | [] => []
  end.

Definition hex_digit (c : N) : option N :=
  if (48 <=? c) && (c <=? 57) then Some (c - 48)
  else if (97 <=? c) && (c <=? 102) then Some (c - 87)
  else if (65 <=? c) && (c <=? 70) then Some (c - 55)
  else None.

Definition unescape (c : N) : option N :=
  if c =? 34 then Some 34 else if c =? 92 then Some 92
  else if c =? 47 then Some 47 else if c =? 98 then Some 8
  else if c =? 102 then Some 12 else if c =? 110 then Some 10
  else if c =? 114 then Some 13 else if c =? 116 then Some 9
  else None.

(** The characters of a string after its opening quote. *)
Fixpoint read_string (s acc : jsstring) : option (jsstring * jsstring) :=
  match s with
  | [] => None
  | c :: r =>
      if c =? 34 then Some (acc, r)
      else if c <? 32 then None
      else if c =? 92 then
        match r with
        | [] => None
        | e :: r1 =>
            if e =? 117 then
              match r1 with
              | h1 :: h2 :: h3 :: h4 :: r2 =>
                  match hex_digit h1, hex_digit h2, hex_digit h3, hex_digit h4 with
                  | Some a, Some b, Some c, Some d =>
                      read_string r2 (acc ++ [((a * 16 + b) * 16 + c) * 16 + d])
                  | _, _, _, _ => None
                  end
              | _ => None
              end
            else
              match unescape e with
              | Some v => read_string r1 (acc ++ [v])
              | None => None
              end
        end
      else read_string r (acc ++ [c])
  end.

Definition is_digit (c : N) : bool := (48 <=? c) && (c <=? 57).

Fixpoint read_digits (s : jsstring) (acc : N) : N * jsstring :=
  match s with
  | c :: r => if is_digit c then read_digits r (acc * 10 + (c - 48)) else (acc, s)
  | [] => (acc, [])
  end.

(** An integer literal; a fraction or an exponent is not read. *)
Definition read_number (s : jsstring) : option (json * jsstring) :=
  let '(neg, s) := match s with
                   | c :: r => if c =? 45 then (true, r) else (false, s)
                   | [] => (false, s)
                   end in
  match s with
  | c :: r =>
      if negb (is_digit c) then None
      else if (c =? 48) && match r with d :: _ => is_digit d | [] => false end then None
      else
        let '(n, rest) := read_digits s 0 in
        match rest with
        | d :: _ =>
            if (d =? 46) || (d =? 101) || (d =? 69) then None
            else Some (JNum (number_of_Z neg (Z.of_N n)), rest)
        | [] => Some (JNum (number_of_Z neg (Z.of_N n)), rest)
        end
  | [] => None
  end.

(** Assignment to a field: a repeated name keeps its place. *)
Fixpoint obj_set (fields : list (jsstring * json)) (k : jsstring) (v : json)
  : list (jsstring * json) :=
  match fields with
  | [] => [(k, v)]
  | (k', v') :: rest =>
      if bool_decide (k' = k) then (k, v) :: rest else (k', v') :: obj_set rest k v
  end.

Fixpoint read_value (fuel : nat) (s : jsstring) : option (json * jsstring) :=
  match fuel with
  | O => None
  | S fuel =>
      let s := skip_ws s in
      match s with
      | [] => None
      | c :: r =>
          if is_prefix (js "null") s then Some (JNull, drop 4 s)
          else if is_prefix (js "true") s then Some (JBool true, drop 4 s)
          else if is_prefix (js "false") s then Some (JBool false, drop 5 s)
          else if c =? 34 then
            match read_string r [] with
            | Some (str, rest) => Some (JStr str, rest)
            | None => None
            end
          else if c =? 91 then
            match skip_ws r with
            | d :: r' => if d =? 93 then Some (JArr [], r') else read_items fuel r []
            | [] => None
            end
          else if c =? 123 then
            match skip_ws r with
            | d :: r' => if d =? 125 then Some (JObj [], r') else read_members fuel r []
            | [] => None
            end
          else read_number s
      end
  end
with read_items (fuel : nat) (s : jsstring) (acc : list json) : option (json * jsstring) :=
  match fuel with
  | O => None
  | S fuel =>
      match read_value fuel s with
      | Some (v, rest) =>
          match skip_ws rest with
          | d :: r' =>
              if d =? 44 then read_items fuel r' (acc ++ [v])
              else if d =? 93 then Some (JArr (acc ++ [v]), r')
              else None
          | [] => None
          end
      | None => None
      end
  end
with read_members (fuel : nat) (s : jsstring) (acc : list (jsstring * json))
  : option (json * jsstring) :=
  match fuel with
  | O => None
  | S fuel =>
      match skip_ws s with
      | q :: r =>
          if q =? 34 then
            match read_string r [] with
            | Some (k, rest) =>
                match skip_ws rest with
                | colon :: rest' =>
                    if colon =? 58 then
                      match read_value fuel rest' with
                      | Some (v, rest'') =>
                          match skip_ws rest'' with
                          | d :: r' =>
                              if d =? 44 then read_members fuel r' (obj_set acc k v)
                              else if d =? 125 then Some (JObj (obj_set acc k v), r')
                              else None
                          | [] => None
                          end
                      | None => None
                      end
                    else None
                | [] => None
                end
            | None => None
            end
          else None
      | [] => None
      end
  end.

Definition parse (s : jsstring) : option json :=
  match read_value (S (length s)) s with
  | Some (v, rest) => if bool_decide (skip_ws rest = []) then Some v else None
  | None => None
  end.

(** *** JSON writer *)

Definition hex_char (d : N) : N := if d <? 10 then 48 + d else 87 + d.

(** A character inside a string literal: the quote (34) and the backslash
    (92) are escaped, control characters are written with their short name
    or as four hexadecimal digits. *)
Definition quote_char (c : N) : jsstring :=
  if c =? 34 then [92; 34]
  else if c =? 92 then [92; 92]
  else if c =? 8 then [92; 98] else if c =? 12 then [92; 102]
  else if c =? 10 then [92; 110] else if c =? 13 then [92; 114]
  else if c =? 9 then [92; 116]
  else if c <? 32 then [92; 117; 48; 48; hex_char (c / 16); hex_char (c mod 16)]
  else [c].

Definition quote (s : jsstring) : jsstring :=
  [34] ++ flat_map quote_char s ++ [34].

Fixpoint stringify (v : json) : jsstring :=
  match v with
  | JNull => js "null"
  | JBool true => js "true"
  | JBool false => js "false"
  | JNum x =>
      match x with
      | S754_nan | S754_infinity _ => js "null"
      | _ => number_to_string x
      end
  | JStr s => quote s
  | JArr items => js "[" ++ join (js ",") (map stringify items) ++ js "]"
  | JObj fields =>
      js "{"
      ++ join (js ",") (map (fun kv => quote (fst kv) ++ js ":" ++ stringify (snd kv)) fields)
      ++ js "}"
  end.

(** *** Network: a few endpoints *)

Definition json_headers : list (jsstring * jsstring) :=
  [(js "Content-Type", js "application/json; charset=utf-8")].

Definition body_text (b : Body) : jsstring :=
  match b with
  | BodyString s => s
  | _ => []
  end.

Definition serve (history : list (jsstring * RequestInit)) (url : jsstring)
    (options : RequestInit) : Result Response :=
  if bool_decide (url = js "/api/balance") then
    Ok (mkResponse 200 (js "OK") json_headers
                   (TextEncoder_encode (jsq "{'balance':42}")) false)
  else if bool_decide (url = js "/api/echo") then
    Ok (mkResponse 200 (js "OK") json_headers
                   (TextEncoder_encode (body_text (body options))) false)
  else if bool_decide (url = js "/api/tampered") then
    Ok (mkResponse 200 (js "OK") json_headers
                   (TextEncoder_encode (jsq "{'encrypted':true,'data':'AAAAAAAAAAAAAAAAAAAAAAAAAAAAAAAAAAAAAAAA'}"))
                   false)
  else if bool_decide (url = js "/api/null") then
    Ok (mkResponse 200 (js "OK") json_headers (TextEncoder_encode (js "null")) false)
  else if bool_decide (url = js "/offline") then Err TypeError
  else
    Ok (mkResponse 404 (js "Not Found") [(js "Content-Type", js "text/plain")]
                   (TextEncoder_encode (js "not found")) false).

Definition platform : Platform := {|
  subtle_available := true;
  random_byte := fun n => byte_of_N (73 * n + 41);
  math_random := fun n => Qmake (Z.of_N ((37 * n + 5) mod 101)) 101;
  aes_key_ok := key_ok;
  aes_gcm_encrypt := seal;
  aes_gcm_decrypt := open;
  pbkdf2_deriveBits := stretch;
  JSON_parse := parse;
  JSON_stringify := stringify;
  Number_toString := number_to_string;
  network := serve
|}.

(** The same browser outside a secure context. *)
Definition insecure : Platform := {|
  subtle_available := false;
  random_byte := random_byte platform;
  math_random := math_random platform;
  aes_key_ok := key_ok;
  aes_gcm_encrypt := seal;
  aes_gcm_decrypt := open;
  pbkdf2_deriveBits := stretch;
  JSON_parse := parse;
  JSON_stringify := stringify;
  Number_toString := number_to_string;
  network := serve
|}.

(** A fresh page: nothing stored, nothing drawn, nothing sent. *)
Definition world0 : World := mkWorld ∅ 0 0 [].

End Reference.

(** * Properties *)

(** ** The model on known values *)

Example btoa_text :
  btoa (js "Many hands make light work.") = Ok (js "TWFueSBoYW5kcyBtYWtlIGxpZ2h0IHdvcmsu").
Proof. reflexivity. Qed.

Example btoa_padding :
  btoa (js "a") = Ok (js "YQ==") /\ btoa (js "ab") = Ok (js "YWI=") /\ btoa [] = Ok [].
Proof. repeat split; reflexivity. Qed.

Example btoa_range : btoa (js "я") = Err InvalidCharacterError.
Proof. reflexivity. Qed.

Example atob_forgiving :
  atob (js " YQ = = ") = Ok (js "a") /\ atob (js "YQ") = Ok (js "a") /\
  atob (js "YQ=") = Err InvalidCharacterError /\ atob (js "Y") = Err InvalidCharacterError.
Proof. repeat split; reflexivity. Qed.

Example encode_euro_clef :
  TextEncoder_encode [0x20AC; 0xD834; 0xDD1E]
  = [Byte.xe2; Byte.x82; Byte.xac; Byte.xf0; Byte.x9d; Byte.x84; Byte.x9e].
Proof. reflexivity. Qed.

Example decode_replaces :
  TextDecoder_decode [Byte.xff] = [0xFFFD] /\
  TextDecoder_decode [Byte.xe2; Byte.x82] = [0xFFFD] /\
  TextDecoder_decode [Byte.xc0; Byte.x80] = [0xFFFD; 0xFFFD] /\
  TextDecoder_decode [Byte.xed; Byte.xa0; Byte.x80] = [0xFFFD; 0xFFFD; 0xFFFD] /\
  TextDecoder_decode [Byte.xef; Byte.xbb; Byte.xbf; Byte.x41] = [0x41].
Proof. repeat split; reflexivity. Qed.

Example content_type_check :
  json_typed (mkResponse 200 (js "OK")
                [(js "Content-Type", js "application/json; charset=utf-8")] [] false) = true /\
  json_typed (mkResponse 200 (js "OK") [(js "content-type", js "text/html")] [] false) = false /\
  json_typed (mkResponse 200 (js "OK") [] [] false) = false.
Proof. repeat split; reflexivity. Qed.

(** A JSON request to an endpoint that sends the body back: the request
    goes out in the transport form and the caller reads the document. *)
Example echo_end_to_end :
  let P := Reference.platform in
  let options := mkInit (BodyString (jsq "{'amount': 100, 'note': 'rent'}")) None [] in
  let run := fetch P EncryptedFetch_new (js "/api/echo") options Reference.world0 in
  (exists response,
      run.1 = Ok response /\
      (Response_json P response run.2).1
      = Ok (JObj [(js "amount", JNum (Reference.number_of_Z false 100));
                  (js "note", JStr (js "rent"))], consumed response)) /\
  (exists encrypted,
      sent run.2
      = [(js "/api/echo",
          mkInit (BodyString (JSON_stringify P (transport_form encrypted)))
                 (Some {[ js "Content-Type" := js "application/json" ]}) [])]).
Proof.
  intros P options run. split.
  - exists (mkResponse 200 (js "OK") Reference.json_headers
              (TextEncoder_encode (jsq "{'amount':100,'note':'rent'}")) false).
    split; vm_compute; reflexivity.
  - exists (match fst (encryptObject P
                         (JObj [(js "amount", JNum (Reference.number_of_Z false 100));
                                (js "note", JStr (js "rent"))])
                         (Base64.encode (random_bytes P Reference.world0 32))
                         (consume Reference.world0 32)) with
            | Ok e => e
            | Err _ => []
            end).
    vm_compute. reflexivity.
Qed.

(** With encryption disabled the call is the native one. *)
Example disabled_is_native (P : Platform) url options w :
  fetch P (setEnabled EncryptedFetch_new false) url options w = native_fetch P url options w.
Proof. reflexivity. Qed.
Ltac Zify.zify_post_hook ::= Z.to_euclidean_division_equations.

(** ** Bytes and bit arithmetic *)

Lemma to_N_byte_of_N n : Byte.to_N (byte_of_N n) = n mod 256.
Proof.
  unfold byte_of_N.
  destruct (Byte.of_N (n mod 256)) as [b|] eqn:E.
  - by apply Byte.to_of_N.
  - apply Byte.of_N_None_iff in E. lia.
Qed.

Lemma byte_of_N_to_N b : byte_of_N (Byte.to_N b) = b.
Proof.
  unfold byte_of_N. pose proof (Byte.to_N_bounded b).
  rewrite N.mod_small by lia. by rewrite Byte.of_to_N.
Qed.

Lemma byte_of_N_eq n b : n mod 256 = Byte.to_N b -> byte_of_N n = b.
Proof. unfold byte_of_N. intros ->. by rewrite Byte.of_to_N. Qed.

Lemma to_N_lt b : Byte.to_N b < 256.
Proof. pose proof (Byte.to_N_bounded b). lia. Qed.

Lemma lor_shiftl_add x y k : y < 2 ^ k -> N.lor (N.shiftl x k) y = x * 2 ^ k + y.
Proof.
  intros Hy. rewrite N.shiftl_mul_pow2.
  assert (N.land (x * 2 ^ k) y = 0) as Hland.
  { apply N.bits_inj_0. intros n. rewrite N.land_spec.
    destruct (N.lt_ge_cases n k).
    - by rewrite N.mul_pow2_bits_low.
    - rewrite <- (N.mod_small y (2 ^ k)) by done.
      rewrite N.mod_pow2_bits_high by done. apply andb_false_r. }
  rewrite <- N.lxor_lor by done. symmetry. by apply N.add_nocarry_lxor.
Qed.

Lemma lor_high_add c x k : c mod 2 ^ k = 0 -> x < 2 ^ k -> N.lor c x = c + x.
Proof.
  intros Hc Hx.
  assert (c = N.shiftl (c / 2 ^ k) k) as Hc'.
  { rewrite N.shiftl_mul_pow2. pose proof (N.div_mod c (2 ^ k)).
    assert (2 ^ k <> 0) by (apply N.pow_nonzero; lia). lia. }
  rewrite Hc', lor_shiftl_add by done. by rewrite N.shiftl_mul_pow2.
Qed.

Lemma land_mask x k : N.land x (2 ^ k - 1) = x mod 2 ^ k.
Proof. rewrite <- N.land_ones. f_equal. rewrite N.ones_equiv. lia. Qed.

Lemma land_3 x : N.land x 3 = x mod 4.
Proof. exact (land_mask x 2). Qed.
Lemma land_7 x : N.land x 7 = x mod 8.
Proof. exact (land_mask x 3). Qed.
Lemma land_15 x : N.land x 15 = x mod 16.
Proof. exact (land_mask x 4). Qed.
Lemma land_31 x : N.land x 31 = x mod 32.
Proof. exact (land_mask x 5). Qed.
Lemma land_63 x : N.land x 63 = x mod 64.
Proof. exact (land_mask x 6). Qed.
Lemma land_1023 x : N.land x 1023 = x mod 1024.
Proof. exact (land_mask x 10). Qed.

(** Shifts and masks by the constants of the codecs, as arithmetic. *)
Ltac bits_to_arith :=
  repeat first
    [ rewrite N.shiftr_div_pow2 | rewrite N.shiftl_mul_pow2
    | rewrite land_3 | rewrite land_7 | rewrite land_15
    | rewrite land_31 | rewrite land_63 | rewrite land_1023 ];
  change (2 ^ 2) with 4 in *; change (2 ^ 4) with 16 in *;
  change (2 ^ 6) with 64 in *; change (2 ^ 10) with 1024 in *;
  change (2 ^ 12) with 4096 in *; change (2 ^ 18) with 262144 in *.

(** Case analysis on the comparisons of a goal. *)
Ltac cmp_cases :=
  repeat (match goal with
          | |- context [N.ltb ?a ?b] => destruct (N.ltb_spec a b)
          | |- context [N.leb ?a ?b] => destruct (N.leb_spec a b)
          | |- context [N.eqb ?a ?b] => destruct (N.eqb_spec a b)
          end; try (exfalso; lia)); simpl.

Lemma list_ind3 {A} (Q : list A -> Prop) :
  Q [] -> (forall a, Q [a]) -> (forall a b, Q [a; b]) ->
  (forall a b c l, Q l -> Q (a :: b :: c :: l)) ->
  forall l, Q l.
Proof.
  intros H0 H1 H2 H3. fix IH 1.
  intros [|a [|b [|c l]]]; [done..|]. apply H3, IH.
Qed.

(** ** Base64 *)

Module Base64Facts.
Import Base64.

Lemma index_of_char_of i : i < 64 -> index_of (char_of i) = Some i.
Proof.
  intros Hi. unfold char_of, index_of.
  cmp_cases; try lia; f_equal; lia.
Qed.

Lemma valid_char_of i : i < 64 -> valid (char_of i) = true.
Proof. intros Hi. unfold valid. rewrite index_of_char_of by done. by apply bool_decide_eq_true. Qed.

Lemma valid_not_pad c : valid c = true -> c <> pad.
Proof. intros Hv ->. by vm_compute in Hv. Qed.

Lemma valid_not_space c : valid c = true -> is_ascii_whitespace c = false.
Proof.
  unfold valid, index_of, is_ascii_whitespace. intros Hv.
  apply bool_decide_eq_true in Hv. revert Hv.
  cmp_cases; try done; intros [? [=]].
Qed.

Lemma sextet1_arith a : sextet1 a = a / 4.
Proof. unfold sextet1. by bits_to_arith. Qed.

Lemma sextet2_arith a b : b < 256 -> sextet2 a b = (a mod 4) * 16 + b / 16.
Proof.
  intros Hb. unfold sextet2. rewrite lor_shiftl_add; bits_to_arith; lia.
Qed.

Lemma sextet3_arith b c : c < 256 -> sextet3 b c = (b mod 16) * 4 + c / 64.
Proof.
  intros Hc. unfold sextet3. rewrite lor_shiftl_add; bits_to_arith; lia.
Qed.

Lemma sextet4_arith c : sextet4 c = c mod 64.
Proof. unfold sextet4. by bits_to_arith. Qed.

Lemma encode_split bs : encode bs = unpadded bs ++ padding bs.
Proof.
  induction bs as [|a|a b|a b c bs IH] using list_ind3; [done..|].
  cbn [encode unpadded padding app]. by rewrite IH.
Qed.

Lemma sextet1_lt a : a < 256 -> sextet1 a < 64.
Proof. intros. rewrite sextet1_arith. lia. Qed.
Lemma sextet2_lt a b : b < 256 -> sextet2 a b < 64.
Proof. intros. rewrite sextet2_arith by done. lia. Qed.
Lemma sextet3_lt b c : c < 256 -> sextet3 b c < 64.
Proof. intros. rewrite sextet3_arith by done. lia. Qed.
Lemma sextet4_lt c : sextet4 c < 64.
Proof. rewrite sextet4_arith. lia. Qed.

Create HintDb b64.
#[local] Hint Resolve to_N_lt sextet1_lt sextet2_lt sextet3_lt sextet4_lt : b64.
#[local] Hint Extern 1 (0 < 256) => reflexivity : b64.

Lemma unpadded_valid bs : Forall (fun c => valid c = true) (unpadded bs).
Proof.
  induction bs as [|a|a b|a b c bs IH] using list_ind3; cbn [unpadded];
    repeat constructor; try apply valid_char_of; auto with b64.
Qed.

Lemma unpadded_length bs :
  exists k, (length (unpadded bs) = 4 * k \/ length (unpadded bs) = 4 * k + 2
             \/ length (unpadded bs) = 4 * k + 3)%nat.
Proof.
  induction bs as [|a|a b|a b c bs [k IH]] using list_ind3; cbn [unpadded length].
  - exists 0%nat. lia.
  - exists 0%nat. lia.
  - exists 0%nat. lia.
  - exists (S k). lia.
Qed.

Lemma encode_length bs : exists k, (length (encode bs) = 4 * k)%nat.
Proof.
  induction bs as [|a|a b|a b c bs [k IH]] using list_ind3.
  - by exists 0%nat.
  - by exists 1%nat.
  - by exists 1%nat.
  - exists (S k).
    change (length (encode (a :: b :: c :: bs))) with (S (S (S (S (length (encode bs)))))).
    lia.
Qed.

Lemma padding_cases bs : padding bs = [] \/ padding bs = [pad] \/ padding bs = [pad; pad].
Proof. induction bs using list_ind3; cbn [padding]; auto. Qed.

Lemma strip_padding_split (u p : jsstring) :
  N.of_nat (length (u ++ p)) mod 4 = 0 ->
  p = [] \/ p = [pad] \/ p = [pad; pad] ->
  Forall (fun c => c <> pad) u ->
  strip_padding (u ++ p) = u.
Proof.
  intros Hlen Hp Hu. unfold strip_padding. rewrite Hlen. cbn [N.eqb].
  rewrite rev_app_distr.
  assert (forall c r, rev u = c :: r -> (c =? pad) = false) as Hlast.
  { intros c r Hr. apply N.eqb_neq.
    assert (u = rev r ++ [c]) as ->.
    { rewrite <- (rev_involutive u), Hr. done. }
    apply Forall_app in Hu as [_ Hc]. by inversion Hc. }
  destruct Hp as [-> | [-> | ->]]; cbn [rev app].
  - rewrite app_nil_r.
    destruct (rev u) as [|c r] eqn:Hr; [done|]. by rewrite (Hlast c r).
  - change (pad =? pad) with true. cbn match.
    destruct (rev u) as [|c r] eqn:Hr.
    + rewrite <- (rev_involutive u), Hr. done.
    + rewrite (Hlast c r) by done. rewrite <- Hr. apply rev_involutive.
  - change (pad =? pad) with true. cbn match. apply rev_involutive.
Qed.

Lemma strip_padding_encode bs : strip_padding (encode bs) = unpadded bs.
Proof.
  destruct (encode_length bs) as [k Hk].
  rewrite encode_split in *. apply strip_padding_split.
  - rewrite Hk. lia.
  - apply padding_cases.
  - eapply Forall_impl; [apply unpadded_valid|]. intros c. apply valid_not_pad.
Qed.

Lemma encode_no_space bs : Forall (fun c => is_ascii_whitespace c = false) (encode bs).
Proof.
  rewrite encode_split. apply Forall_app. split.
  - eapply Forall_impl; [apply unpadded_valid|]. intros c. apply valid_not_space.
  - destruct (padding_cases bs) as [-> | [-> | ->]]; repeat constructor.
Qed.

Lemma filter_all {A} (Q : A -> Prop) `{!forall x, Decision (Q x)} (l : list A) :
  Forall Q l -> filter Q l = l.
Proof.
  induction 1 as [|x l Hx _ IH]; [done|].
  rewrite filter_cons_True by done. by rewrite IH.
Qed.

Lemma decode_loop_step buf nbits c rest :
  nbits + 6 <> 24 ->
  decode_loop buf nbits (c :: rest)
  = decode_loop (N.lor (N.shiftl buf 6) (default 0 (index_of c))) (nbits + 6) rest.
Proof. intros H. cbn [decode_loop]. apply N.eqb_neq in H. by rewrite H. Qed.

Lemma push6 buf i : i < 64 ->
  N.lor (N.shiftl buf 6) (default 0 (index_of (char_of i))) = buf * 64 + i.
Proof.
  intros Hi. rewrite index_of_char_of by done. cbn [default].
  by rewrite lor_shiftl_add.
Qed.

Lemma decode_loop_unpadded bs : decode_loop 0 0 (unpadded bs) = bs.
Proof.
  induction bs as [|a|a b|a b c bs IH] using list_ind3.
  - done.
  - cbn [unpadded]. rewrite !decode_loop_step by done.
    rewrite !push6 by auto with b64.
    cbn [decode_loop N.add N.eqb Pos.add Pos.eqb Pos.succ].
    f_equal. apply byte_of_N_eq. pose proof (to_N_lt a).
    rewrite sextet1_arith, sextet2_arith by done. bits_to_arith. lia.
  - cbn [unpadded]. rewrite !decode_loop_step by done.
    rewrite !push6 by auto with b64.
    cbn [decode_loop N.add N.eqb Pos.add Pos.eqb Pos.succ].
    pose proof (to_N_lt a). pose proof (to_N_lt b).
    rewrite sextet1_arith, sextet2_arith, sextet3_arith by done. bits_to_arith.
    f_equal; [|f_equal]; apply byte_of_N_eq; lia.
  - cbn [unpadded]. rewrite !decode_loop_step by done.
    rewrite !push6 by auto with b64.
    cbn [decode_loop]. rewrite push6 by auto with b64.
    change (0 + 6 + 6 + 6 + 6 =? 24) with true. cbn match.
    pose proof (to_N_lt a). pose proof (to_N_lt b). pose proof (to_N_lt c).
    rewrite IH, sextet1_arith, sextet2_arith, sextet3_arith, sextet4_arith by done. bits_to_arith.
    change (2 ^ 16) with 65536. change (2 ^ 8) with 256.
    f_equal; [|f_equal; [|f_equal]]; apply byte_of_N_eq; lia.
Qed.

(** Decoding inverts encoding. *)
Lemma decode_encode bs : decode (encode bs) = Some bs.
Proof.
  unfold decode. rewrite (filter_all _ _ (encode_no_space bs)).
  rewrite strip_padding_encode.
  destruct (unpadded_length bs) as [k Hk].
  assert ((N.of_nat (length (unpadded bs)) mod 4 =? 1) = false) as ->.
  { apply N.eqb_neq. lia. }
  assert (forallb valid (unpadded bs) = true) as ->.
  { apply forallb_forall. intros c Hc.
    pose proof (unpadded_valid bs) as Hv. rewrite Forall_forall in Hv.
    apply Hv. by apply list_elem_of_In. }
  by rewrite decode_loop_unpadded.
Qed.
End Base64Facts.

(** ** The framing helpers of [CryptoManager] *)

Lemma fold_left_snoc_map {A B} (f : A -> B) (l : list A) (acc : list B) :
  fold_left (fun acc x => acc ++ [f x]) l acc = acc ++ map f l.
Proof.
  revert acc. induction l as [|x l IH]; intros acc; cbn [fold_left map].
  - by rewrite app_nil_r.
  - rewrite IH, <- app_assoc. done.
Qed.

(** Filling a fresh array slot by slot gives the image of the string. *)
Lemma fold_left_insert_map {A B} `{!Inhabited A} (f : A -> B) (l : list A) (z : B) :
  fold_left (fun out i => <[i := f (l !!! i)]> out) (seq 0 (length l))
            (replicate (length l) z)
  = map f l.
Proof.
  assert (forall k, (k <= length l)%nat ->
            fold_left (fun out i => <[i := f (l !!! i)]> out) (seq 0 k)
                      (replicate (length l) z)
            = map f (take k l) ++ replicate (length l - k) z) as Hk.
  { induction k as [|k IH]; intros Hle.
    - cbn. by rewrite Nat.sub_0_r.
    - rewrite seq_S, fold_left_app, IH by lia. cbn [fold_left Nat.add].
      destruct (lookup_lt_is_Some_2 l k) as [x Hx]; [lia|].
      rewrite (list_lookup_total_correct _ _ _ Hx).
      rewrite (take_S_r _ _ _ Hx), map_app. cbn [map].
      replace (length l - k)%nat with (S (length l - S k)) by lia.
      cbn [replicate].
      rewrite insert_app_r_alt; rewrite length_map, length_take; [|lia].
      replace (k - k `min` length l)%nat with 0%nat by lia.
      cbn. by rewrite <- app_assoc. }
  rewrite Hk by done. rewrite firstn_all, Nat.sub_diag. cbn. apply app_nil_r.
Qed.

Lemma arrayBufferToBase64_encode (buffer : list byte) :
  arrayBufferToBase64 buffer = Ok (Base64.encode buffer).
Proof.
  unfold arrayBufferToBase64. rewrite fold_left_snoc_map. cbn [app].
  unfold btoa.
  assert (map (fun b => String_fromCharCode (Byte.to_N b)) buffer = map Byte.to_N buffer) as ->.
  { apply map_ext. intros b. unfold String_fromCharCode.
    pose proof (to_N_lt b). apply N.mod_small. lia. }
  assert (forallb (fun c => c <=? 255) (map Byte.to_N buffer) = true) as ->.
  { apply forallb_forall. intros c Hc. apply in_map_iff in Hc as (b & <- & _).
    apply N.leb_le, Byte.to_N_bounded. }
  rewrite map_map. f_equal. f_equal.
  rewrite <- (map_id buffer) at 2. apply map_ext. apply byte_of_N_to_N.
Qed.

Lemma base64ToArrayBuffer_decode (base64 : jsstring) :
  base64ToArrayBuffer base64
  = match Base64.decode base64 with
    | Some bs => Ok bs
    | None => Err InvalidCharacterError
    end.
Proof.
  unfold base64ToArrayBuffer, atob.
  destruct (Base64.decode base64) as [bs|]; [|done].
  cbn. unfold Uint8Array_new. rewrite fold_left_insert_map.
  f_equal. rewrite map_map. rewrite <- (map_id bs) at 2.
  apply map_ext. apply byte_of_N_to_N.
Qed.

Lemma base64_roundtrip (b : list byte) :
  base64ToArrayBuffer (Base64.encode b) = Ok b.
Proof. by rewrite base64ToArrayBuffer_decode, Base64Facts.decode_encode. Qed.

(** ** UTF-8 *)

Module UtfFacts.
Import Utf.

Lemma lead_1 b : b <= 0x7F -> lead b = (d_init, [b]).
Proof. intros. unfold lead. by cmp_cases. Qed.

Lemma lead_2 b : 0xC2 <= b <= 0xDF -> lead b = (DState (b mod 32) 0 1 0x80 0xBF, []).
Proof. intros. unfold lead. cmp_cases. by rewrite land_31. Qed.

Lemma lead_3 b : 0xE0 <= b <= 0xEF ->
  lead b = (DState (b mod 16) 0 2 (if b =? 0xE0 then 0xA0 else 0x80)
                   (if b =? 0xED then 0x9F else 0xBF), []).
Proof.
  intros. unfold lead.
  destruct (N.leb_spec b 0x7F); [lia|].
  destruct (N.leb_spec 0xC2 b); [|lia]. destruct (N.leb_spec b 0xDF); [lia|].
  destruct (N.leb_spec 0xE0 b); [|lia]. destruct (N.leb_spec b 0xEF); [|lia].
  cbn [andb]. by rewrite land_15.
Qed.

Lemma lead_4 b : 0xF0 <= b <= 0xF4 ->
  lead b = (DState (b mod 8) 0 3 (if b =? 0xF0 then 0x90 else 0x80)
                   (if b =? 0xF4 then 0x8F else 0xBF), []).
Proof.
  intros. unfold lead.
  destruct (N.leb_spec b 0x7F); [lia|].
  destruct (N.leb_spec 0xC2 b); [|lia]. destruct (N.leb_spec b 0xDF); [lia|].
  destruct (N.leb_spec 0xE0 b); [|lia]. destruct (N.leb_spec b 0xEF); [lia|].
  destruct (N.leb_spec 0xF0 b); [|lia]. destruct (N.leb_spec b 0xF4); [|lia].
  cbn [andb]. by rewrite land_7.
Qed.

(** A continuation byte inside the expected range. *)
Lemma step_cont cp seen needed lo hi b :
  needed <> 0 -> lo <= b <= hi ->
  step (DState cp seen needed lo hi) b
  = if seen + 1 =? needed then (d_init, [cp * 64 + b mod 64])
    else (DState (cp * 64 + b mod 64) (seen + 1) needed 0x80 0xBF, []).
Proof.
  intros Hn Hb. unfold step. cbn [d_needed d_lower d_upper d_cp d_seen].
  destruct (N.eqb_spec needed 0); [done|].
  destruct (N.leb_spec lo b); [|lia]. destruct (N.leb_spec b hi); [|lia].
  cbn [andb negb]. rewrite lor_shiftl_add, land_63; [done|].
  rewrite land_63. change (2 ^ 6) with 64. lia.
Qed.

Lemma step_last cp seen needed lo hi b :
  needed <> 0 -> lo <= b <= hi -> seen + 1 = needed ->
  step (DState cp seen needed lo hi) b = (d_init, [cp * 64 + b mod 64]).
Proof.
  intros Hn Hb Hs. rewrite step_cont by done.
  apply N.eqb_eq in Hs. by rewrite Hs.
Qed.

Lemma step_more cp seen needed lo hi b :
  needed <> 0 -> lo <= b <= hi -> seen + 1 <> needed ->
  step (DState cp seen needed lo hi) b
  = (DState (cp * 64 + b mod 64) (seen + 1) needed 0x80 0xBF, []).
Proof.
  intros Hn Hb Hs. rewrite step_cont by done.
  apply N.eqb_neq in Hs. by rewrite Hs.
Qed.

Lemma run_cons st b rest :
  run st (b :: rest) = (step st (Byte.to_N b)).2 ++ run (step st (Byte.to_N b)).1 rest.
Proof. cbn [run]. by destruct (step st (Byte.to_N b)). Qed.

Lemma step_init b : step d_init b = lead b.
Proof. done. Qed.

(** The value of an encoded byte. *)
Lemma enc_byte hi x k :
  hi mod 2 ^ k = 0 -> x < 2 ^ k -> hi + x < 256 ->
  Byte.to_N (byte_of_N (N.lor hi x)) = hi + x.
Proof.
  intros. rewrite (lor_high_add hi x k) by done.
  rewrite to_N_byte_of_N. by apply N.mod_small.
Qed.

Lemma run_encode_cp cp rest :
  scalar cp -> run d_init (encode_cp cp ++ rest) = cp :: run d_init rest.
Proof.
  intros [Hmax Hsur]. unfold encode_cp.
  destruct (N.leb_spec cp 0x7F) as [H1|H1].
  { cbn [app]. rewrite run_cons, step_init, to_N_byte_of_N.
    rewrite N.mod_small by lia. by rewrite lead_1. }
  destruct (N.leb_spec cp 0x7FF) as [H2|H2].
  { cbn [app]. rewrite !run_cons, step_init.
    rewrite (enc_byte 0xC0 _ 6), (enc_byte 0x80 _ 6);
      try done; bits_to_arith; try lia.
    rewrite lead_2 by lia. cbn [fst snd app].
    rewrite step_last by lia. cbn [fst snd app].
    f_equal. lia. }
  destruct (N.leb_spec cp 0xFFFF) as [H3|H3].
  { cbn [app]. rewrite !run_cons, step_init.
    rewrite (enc_byte 0xE0 _ 4), !(enc_byte 0x80 _ 6);
      try done; bits_to_arith; try lia.
    rewrite lead_3 by lia. cbn [fst snd app].
    rewrite step_more; [|done|cmp_cases; lia|done].
    cbn [fst snd app].
    rewrite step_last by lia. cbn [fst snd app].
    f_equal. lia. }
  cbn [app]. rewrite !run_cons, step_init.
  rewrite (enc_byte 0xF0 _ 3), !(enc_byte 0x80 _ 6);
    try done; bits_to_arith; try lia.
  rewrite lead_4 by lia. cbn [fst snd app].
  rewrite step_more; [|done|cmp_cases; lia|done].
  cbn [fst snd app].
  rewrite step_more by lia. cbn [fst snd app].
  rewrite step_last by lia. cbn [fst snd app].
  f_equal. lia.
Qed.

Lemma run_encode cps :
  Forall scalar cps -> run d_init (flat_map encode_cp cps) = cps.
Proof.
  induction 1 as [|cp cps Hcp _ IH]; [done|].
  cbn [flat_map]. by rewrite run_encode_cp, IH.
Qed.

Lemma surrogates c :
  (is_lead c = true <-> 0xD800 <= c <= 0xDBFF) /\
  (is_trail c = true <-> 0xDC00 <= c <= 0xDFFF).
Proof.
  unfold is_lead, is_trail. rewrite !andb_true_iff, !N.leb_le. tauto.
Qed.

(** The code point of a surrogate pair gives the pair back. *)
Lemma of_scalar_pair c d :
  0xD800 <= c <= 0xDBFF -> 0xDC00 <= d <= 0xDFFF ->
  let cp := 0x10000 + N.shiftl (c - 0xD800) 10 + (d - 0xDC00) in
  scalar cp /\ of_scalar cp = [c; d].
Proof.
  intros Hc Hd cp. subst cp. unfold scalar, of_scalar. bits_to_arith.
  split; [lia|].
  destruct (N.leb_spec (65536 + (c - 55296) * 1024 + (d - 56320)) 65535); [lia|].
  f_equal; [|f_equal]; lia.
Qed.

Lemma of_scalar_bmp c : c < 0x10000 -> of_scalar c = [c].
Proof. intros. unfold of_scalar. by cmp_cases. Qed.

(** On a well-formed string the conversion to scalar values loses nothing. *)
Lemma to_scalars_well_formed n s :
  (length s <= n)%nat -> well_formed s = true ->
  Forall scalar (to_scalars s) /\ flat_map of_scalar (to_scalars s) = s.
Proof.
  revert s. induction n as [|n IH]; intros s Hn Hwf.
  { destruct s; [done|]. cbn in Hn. lia. }
  destruct s as [|c rest]; [done|].
  cbn [to_scalars well_formed] in *.
  destruct (surrogates c) as [Hlead Htrail].
  destruct (is_lead c) eqn:El.
  - destruct rest as [|d rest']; [done|].
    apply andb_true_iff in Hwf as [Hd Hwf]. rewrite Hd.
    destruct (IH rest') as [Hsc Hrt]; [cbn in Hn; lia|done|].
    destruct (of_scalar_pair c d) as [Hcp Hpair];
      [by apply Hlead|by apply (surrogates d)|].
    split; [by constructor|]. cbn [flat_map]. by rewrite Hpair, Hrt.
  - apply andb_true_iff in Hwf as [Hwf1 Hwf].
    apply andb_true_iff in Hwf1 as [Ht Hlt].
    apply negb_true_iff in Ht. rewrite Ht. apply N.ltb_lt in Hlt.
    destruct (IH rest) as [Hsc Hrt]; [cbn in Hn; lia|done|].
    split.
    + constructor; [|done]. split; [lia|]. intros Hs.
      destruct (N.le_gt_cases c 0xDBFF).
      * assert (false = true) by (apply Hlead; lia). done.
      * assert (is_trail c = true) by (apply Htrail; lia). congruence.
    + cbn [flat_map]. by rewrite of_scalar_bmp, Hrt.
Qed.

(** The first scalar value is U+FEFF only when the first code unit is. *)
Lemma strip_bom_to_scalars s :
  head s <> Some 0xFEFF -> strip_bom (to_scalars s) = to_scalars s.
Proof.
  intros Hh. destruct s as [|c rest]; [done|].
  assert (c <> 0xFEFF) as Hc by (intros ->; by apply Hh).
  cbn [to_scalars]. destruct (surrogates c) as [Hlead Htrail].
  destruct (is_lead c) eqn:El.
  - destruct rest as [|d rest']; [done|].
    destruct (surrogates d) as [_ Htd].
    destruct (is_trail d) eqn:Et; [|done].
    unfold strip_bom. bits_to_arith.
    destruct (N.eqb_spec (65536 + (c - 55296) * 1024 + (d - 56320)) 65279); [lia|done].
  - destruct (is_trail c) eqn:Et; [done|].
    unfold strip_bom. by destruct (N.eqb_spec c 65279).
Qed.

End UtfFacts.

(** The bytes of a well-formed string determine it: it is what the decoder
    reads, before any U+FEFF is dropped. *)
Lemma encode_determines_text (s : jsstring) :
  Utf.well_formed s = true ->
  s = flat_map Utf.of_scalar (Utf.run Utf.d_init (TextEncoder_encode s)).
Proof.
  intros Hwf. unfold TextEncoder_encode.
  destruct (UtfFacts.to_scalars_well_formed (length s) s) as [Hsc Hrt]; [done..|].
  by rewrite UtfFacts.run_encode.
Qed.

(** Decoding the encoding of a well-formed string that does not start with
    U+FEFF gives the string back. *)
Lemma text_roundtrip (s : jsstring) :
  Utf.well_formed s = true -> head s <> Some 0xFEFF ->
  TextDecoder_decode (TextEncoder_encode s) = s.
Proof.
  intros Hwf Hbom. unfold TextDecoder_decode, TextEncoder_encode.
  destruct (UtfFacts.to_scalars_well_formed (length s) s) as [Hsc Hrt]; [done..|].
  by rewrite UtfFacts.run_encode, UtfFacts.strip_bom_to_scalars.
Qed.

(** ** The monad of effects *)

Ltac munfold :=
  cbv [mbind M_bind mret M_ret lift throw try_catch subtle rbind
       Result_bind Result_ret] in *.

Lemma bind_ok {A B} (m : M A) (f : A -> M B) w a w' :
  m w = (Ok a, w') -> (x ← m; f x) w = f a w'.
Proof. intros H. munfold. by rewrite H. Qed.

Lemma bind_err {A B} (m : M A) (f : A -> M B) w e w' :
  m w = (Err e, w') -> (x ← m; f x) w = (Err e, w').
Proof. intros H. munfold. by rewrite H. Qed.

(** ** [CryptoManager]: what each method returns *)

Section CryptoFacts.

Context (P : Platform).

Lemma length_random_bytes w n : length (random_bytes P w n) = n.
Proof. unfold random_bytes. by rewrite length_map, length_seq. Qed.

Lemma importKey_ok k raw w :
  subtle_available P = true -> Base64.decode k = Some raw -> aes_key_ok P raw = true ->
  importKey P k w = (Ok (mkKey raw false), w).
Proof.
  intros Ha Hd Hk. unfold importKey. rewrite base64ToArrayBuffer_decode, Hd.
  unfold subtle_importKey. munfold. by rewrite Ha, Hk.
Qed.

Lemma importKey_inv k key w w' :
  importKey P k w = (Ok key, w') ->
  w' = w /\ subtle_available P = true /\
  exists raw, Base64.decode k = Some raw /\ aes_key_ok P raw = true /\ key = mkKey raw false.
Proof.
  unfold importKey. rewrite base64ToArrayBuffer_decode.
  unfold subtle_importKey. munfold.
  destruct (Base64.decode k) as [raw|]; [|done].
  destruct (subtle_available P); [|done].
  destruct (aes_key_ok P raw) eqn:Hk; [|done].
  intros [= <- <-]. eauto 10.
Qed.

Lemma importKey_world k w : (importKey P k w).2 = w.
Proof.
  unfold importKey. rewrite base64ToArrayBuffer_decode.
  unfold subtle_importKey. munfold.
  destruct (Base64.decode k) as [raw|]; [|done].
  destruct (subtle_available P); [|done].
  by destruct (aes_key_ok P raw).
Qed.

(** The two [set] calls of [encrypt] lay the IV before the ciphertext. *)
Lemma combined_eq (iv ct : list byte) :
  (c ← Uint8Array_set (Uint8Array_new (length iv + length ct)) iv 0;
   Uint8Array_set c ct (length iv)) = Ok (iv ++ ct).
Proof.
  unfold Uint8Array_set, Uint8Array_new. munfold.
  rewrite length_replicate. rewrite bool_decide_eq_true_2 by lia.
  rewrite take_0. cbn [app Nat.add]. rewrite drop_replicate.
  rewrite !length_app, length_replicate.
  rewrite bool_decide_eq_true_2 by lia. f_equal.
  rewrite take_app_length. rewrite drop_ge; [by rewrite app_nil_r|].
  rewrite !length_app, length_replicate. lia.
Qed.

Lemma encrypt_ok p k key ct w :
  importKey P k w = (Ok key, w) ->
  aes_gcm_encrypt P (key_raw key) (random_bytes P w 12) (TextEncoder_encode p) = Some ct ->
  encrypt P p k w = (Ok (Base64.encode (random_bytes P w 12 ++ ct)), consume w 12).
Proof.
  intros Hk Hct. destruct (importKey_inv _ _ _ _ Hk) as (_ & Ha & _).
  unfold encrypt, generateIV, getRandomValues, subtle_encrypt, ivLength.
  pose proof (combined_eq (random_bytes P w 12) ct) as Hc.
  munfold. rewrite Hk, Ha, Hct.
  destruct (Uint8Array_set _ (random_bytes P w 12) 0) as [c|]; [|done].
  rewrite Hc. by rewrite arrayBufferToBase64_encode.
Qed.

Lemma encrypt_inv p k env w w' :
  encrypt P p k w = (Ok env, w') ->
  exists key ct,
    importKey P k w = (Ok key, w) /\
    aes_gcm_encrypt P (key_raw key) (random_bytes P w 12) (TextEncoder_encode p) = Some ct /\
    env = Base64.encode (random_bytes P w 12 ++ ct) /\ w' = consume w 12.
Proof.
  intros He. unfold encrypt in He.
  pose proof (importKey_world k w) as Hw.
  destruct (importKey P k w) as [[key|e] w1] eqn:Hk; cbn in Hw; subst w1.
  - destruct (importKey_inv _ _ _ _ Hk) as (_ & Ha & _).
    destruct (aes_gcm_encrypt P (key_raw key) (random_bytes P w 12) (TextEncoder_encode p))
      as [ct|] eqn:Hct.
    + exists key, ct.
      pose proof (encrypt_ok p k key ct w Hk Hct) as Hok. unfold encrypt in Hok.
      rewrite Hok in He. by injection He as <- <-.
    + exfalso. revert He.
      unfold generateIV, getRandomValues, subtle_encrypt, ivLength. munfold.
      by rewrite Hk, Ha, Hct.
  - exfalso. revert He. munfold. by rewrite Hk.
Qed.

Lemma decrypt_ok env k key combined pt w :
  importKey P k w = (Ok key, w) ->
  Base64.decode env = Some combined ->
  aes_gcm_decrypt P (key_raw key) (take 12 combined) (drop 12 combined) = Some pt ->
  decrypt P env k w = (Ok (TextDecoder_decode pt), w).
Proof.
  intros Hk Hd Hpt. destruct (importKey_inv _ _ _ _ Hk) as (_ & Ha & _).
  unfold decrypt, subtle_decrypt, ivLength. rewrite base64ToArrayBuffer_decode, Hd.
  munfold. by rewrite Hk, Ha, Hpt.
Qed.

(** [decrypt] changes nothing in the world, and every failure inside it
    reaches the caller as the one [Error] of its [catch]. *)
Lemma decrypt_world env k w : (decrypt P env k w).2 = w.
Proof.
  unfold decrypt, subtle_decrypt, ivLength. rewrite base64ToArrayBuffer_decode.
  pose proof (importKey_world k w) as Hw. munfold.
  destruct (importKey P k w) as [[key|e] w1]; cbn in Hw; subst w1; [|done].
  destruct (Base64.decode env) as [combined|]; [|done].
  destruct (subtle_available P); [|done].
  by destruct (aes_gcm_decrypt P _ _ _).
Qed.

Lemma decrypt_err env k e w w' :
  decrypt P env k w = (Err e, w') -> e = msg_decrypt.
Proof.
  unfold decrypt, subtle_decrypt, ivLength. rewrite base64ToArrayBuffer_decode.
  munfold.
  destruct (importKey P k w) as [[key|e0] w1]; [|by intros [= <- _]].
  destruct (Base64.decode env) as [combined|]; [|by intros [= <- _]].
  destruct (subtle_available P); [|by intros [= <- _]].
  destruct (aes_gcm_decrypt P _ _ _); [done|by intros [= <- _]].
Qed.

Lemma generateKey_inv k w w' :
  generateKey P w = (Ok k, w') ->
  subtle_available P = true /\ k = Base64.encode (random_bytes P w 32) /\ w' = consume w 32.
Proof.
  unfold generateKey, subtle_generateKey, subtle_exportKey, getRandomValues.
  munfold. destruct (subtle_available P); [|done].
  cbn [extractable key_raw]. rewrite arrayBufferToBase64_encode.
  by intros [= <- <-].
Qed.

Lemma generateKey_ok w :
  subtle_available P = true ->
  generateKey P w = (Ok (Base64.encode (random_bytes P w 32)), consume w 32).
Proof.
  intros Ha.
  unfold generateKey, subtle_generateKey, subtle_exportKey, getRandomValues.
  munfold. rewrite Ha. cbn [extractable key_raw].
  by rewrite arrayBufferToBase64_encode.
Qed.

End CryptoFacts.

(** ** The reference platform satisfies the laws *)

Module ReferenceFacts.
Import Reference.

Lemma mix_lt k iv i : mix k iv i < 256.
Proof. unfold mix. lia. Qed.

Lemma unmask_mask k iv i data : unmask k iv i (mask k iv i data) = data.
Proof.
  revert i. induction data as [|b data IH]; intros i; [done|].
  cbn [mask unmask]. rewrite IH. f_equal.
  apply byte_of_N_eq. rewrite to_N_byte_of_N.
  pose proof (to_N_lt b). pose proof (mix_lt k iv i). lia.
Qed.

Lemma length_mask k iv i data : length (mask k iv i data) = length data.
Proof.
  revert i. induction data as [|b data IH]; intros i; [done|].
  cbn [mask length]. by rewrite IH.
Qed.

Lemma length_tag k iv ct : length (tag k iv ct) = 16%nat.
Proof. unfold tag. by rewrite length_map, length_seq. Qed.

Lemma inverts : aes_gcm_inverts platform.
Proof.
  intros k iv pt ct _ [= <-]. cbn [aes_gcm_decrypt platform]. unfold open.
  rewrite length_app, length_tag, length_mask.
  rewrite bool_decide_eq_false_2 by lia.
  replace (length pt + 16 - 16)%nat with (length (mask k iv 0 pt))
    by (rewrite length_mask; lia).
  rewrite take_app_length, drop_app_length.
  rewrite bool_decide_eq_true_2 by done. by rewrite unmask_mask.
Qed.

Lemma encrypts : aes_gcm_encrypts platform.
Proof. intros k iv pt _ _. by eexists. Qed.

Lemma tagged : aes_gcm_tagged platform.
Proof.
  intros k iv pt ct [= <-]. by rewrite length_app, length_tag, length_mask.
Qed.

Lemma accepted : aes_256_accepted platform.
Proof.
  intros k Hk. cbn [aes_key_ok platform]. unfold key_ok.
  apply bool_decide_eq_true. auto.
Qed.

Lemma derives : pbkdf2_derives platform.
Proof.
  intros params password len _ _ _. eexists. split; [done|].
  rewrite length_map, length_seq. lia.
Qed.


End ReferenceFacts.

(** ** Claims on the AEAD engine and the envelope *)

(** C9. The base64 framing helpers round-trip exactly: for every byte
    sequence [b], the empty one and those that are not valid UTF-8 included,
    [arrayBufferToBase64 b] returns a string and [base64ToArrayBuffer] of
    that string returns [b]. *)
Theorem C9_base64_roundtrip (b : list byte) :
  exists s, arrayBufferToBase64 b = Ok s /\ base64ToArrayBuffer s = Ok b.
Proof.
  exists (Base64.encode b). split.
  - apply arrayBufferToBase64_encode.
  - apply base64_roundtrip.
Qed.

Section EnvelopeFacts.

Context (P : Platform).

(** Whatever the string, decrypting what was just encrypted gives the text
    the decoder makes of the encoder's bytes. *)
Lemma decrypt_after_encrypt p k key w :
  aes_gcm_encrypts P -> aes_gcm_inverts P ->
  importKey P k w = (Ok key, w) ->
  exists env,
    encrypt P p k w = (Ok env, consume w 12) /\
    decrypt P env k (consume w 12)
    = (Ok (TextDecoder_decode (TextEncoder_encode p)), consume w 12).
Proof.
  intros Henc Hinv Hk.
  destruct (importKey_inv _ _ _ _ _ Hk) as (_ & Ha & raw & Hd & Hok & ->).
  destruct (Henc raw (random_bytes P w 12) (TextEncoder_encode p)) as [ct Hct];
    [done|apply length_random_bytes|].
  eexists. split; [by apply (encrypt_ok P p k _ ct w Hk)|].
  eapply decrypt_ok.
  - by apply importKey_ok.
  - apply Base64Facts.decode_encode.
  - cbn [key_raw].
    rewrite take_app_length', drop_app_length' by (symmetry; apply length_random_bytes).
    by apply Hinv.
Qed.

Lemma generated_key_imports k w0 w0' w :
  aes_256_accepted P ->
  generateKey P w0 = (Ok k, w0') ->
  importKey P k w = (Ok (mkKey (random_bytes P w0 32) false), w).
Proof.
  intros Hacc Hg. destruct (generateKey_inv _ _ _ _ Hg) as (Ha & -> & _).
  apply importKey_ok; [done|apply Base64Facts.decode_encode|].
  apply Hacc, length_random_bytes.
Qed.

End EnvelopeFacts.

(** C1 (as amended). For every plaintext [p] that holds no unpaired
    surrogate and does not begin with U+FEFF (the empty string, embedded NUL
    and multibyte characters included) and every key [k] produced by
    [generateKey], [encrypt p k] returns an envelope and [decrypt] of that
    envelope under [k] returns [p]. *)
Theorem C1_roundtrip (P : Platform) :
  aes_256_accepted P -> aes_gcm_encrypts P -> aes_gcm_inverts P ->
  forall w0 k w0', generateKey P w0 = (Ok k, w0') ->
  forall p w, Utf.well_formed p = true -> head p <> Some 0xFEFF ->
  exists env w', encrypt P p k w = (Ok env, w') /\ decrypt P env k w' = (Ok p, w').
Proof.
  intros Hacc Henc Hinv w0 k w0' Hg p w Hwf Hbom.
  pose proof (generated_key_imports P k w0 w0' w Hacc Hg) as Hk.
  destruct (decrypt_after_encrypt P p k _ w Henc Hinv Hk) as (env & He & Hd).
  exists env, (consume w 12). split; [done|].
  by rewrite Hd, text_roundtrip.
Qed.

(** A plaintext with a NUL, a Cyrillic letter and a character outside the
    basic plane, on the reference platform. *)
Lemma C1_roundtrip_witness :
  let P := Reference.platform in
  let p := [0x434; 0; 0xD834; 0xDD1E] in
  let k := Base64.encode (random_bytes P Reference.world0 32) in
  exists env w',
    encrypt P p k (consume Reference.world0 32) = (Ok env, w') /\
    decrypt P env k w' = (Ok p, w').
Proof.
  intros P p k.
  apply (C1_roundtrip P ReferenceFacts.accepted ReferenceFacts.encrypts
           ReferenceFacts.inverts Reference.world0 k (consume Reference.world0 32)).
  - by apply generateKey_ok.
  - reflexivity.
  - discriminate.
Defined.

(** C1 as stated fails on the string that is one unpaired surrogate: with a
    key from [generateKey], decrypting its encryption returns U+FFFD. *)
Lemma C1_counterexample :
  let P := Reference.platform in
  let p := [0xD800] in
  let k := Base64.encode (random_bytes P Reference.world0 32) in
  let w := consume Reference.world0 32 in
  generateKey P Reference.world0 = (Ok k, w) /\
  fst ((env ← encrypt P p k; decrypt P env k) w) = Ok [0xFFFD] /\
  [0xFFFD] <> p.
Proof.
  intros P p k w. split; [|split].
  - by apply generateKey_ok.
  - vm_compute. reflexivity.
  - discriminate.
Qed.

(** The two strings the transcoding loses: an unpaired surrogate comes back
    as U+FFFD and a leading U+FEFF is dropped. *)
Lemma lost_in_transcoding :
  TextDecoder_decode (TextEncoder_encode [0xD800]) = [0xFFFD] /\
  TextDecoder_decode (TextEncoder_encode [0xFEFF; 0x41]) = [0x41].
Proof. split; reflexivity. Qed.

(** So it is on every platform that keeps the laws of AES-GCM. *)
Lemma unpaired_surrogate_lost (P : Platform) :
  aes_256_accepted P -> aes_gcm_encrypts P -> aes_gcm_inverts P ->
  forall w0 k w0', generateKey P w0 = (Ok k, w0') ->
  forall w, exists env w',
    encrypt P [0xD800] k w = (Ok env, w') /\ decrypt P env k w' = (Ok [0xFFFD], w').
Proof.
  intros Hacc Henc Hinv w0 k w0' Hg w.
  pose proof (generated_key_imports P k w0 w0' w Hacc Hg) as Hk.
  destruct (decrypt_after_encrypt P [0xD800] k _ w Henc Hinv Hk) as (env & He & Hd).
  by exists env, (consume w 12).
Qed.

(** C4. For every plaintext [p] and every key [k] that [importKey] accepts,
    [encrypt p k] returns an envelope whose base64 decoding is the 12 bytes
    just drawn from the random source followed by the ciphertext with its
    16-byte tag: [12 + (utf8ByteLength p + 16)] bytes. *)
Theorem C4_envelope_length (P : Platform) :
  aes_gcm_encrypts P -> aes_gcm_tagged P ->
  forall p k key w, importKey P k w = (Ok key, w) ->
  exists env iv ct,
    encrypt P p k w = (Ok env, consume w 12) /\
    iv = random_bytes P w 12 /\ length iv = 12%nat /\
    aes_gcm_encrypt P (key_raw key) iv (TextEncoder_encode p) = Some ct /\
    length ct = (length (TextEncoder_encode p) + 16)%nat /\
    base64ToArrayBuffer env = Ok (iv ++ ct) /\
    length (iv ++ ct) = (12 + (length (TextEncoder_encode p) + 16))%nat.
Proof.
  intros Henc Htag p k key w Hk.
  destruct (importKey_inv _ _ _ _ _ Hk) as (_ & Ha & raw & Hd & Hok & ->).
  destruct (Henc raw (random_bytes P w 12) (TextEncoder_encode p)) as [ct Hct];
    [done|apply length_random_bytes|].
  exists (Base64.encode (random_bytes P w 12 ++ ct)), (random_bytes P w 12), ct.
  pose proof (Htag _ _ _ _ Hct) as Hlen.
  split_and!.
  - by apply (encrypt_ok P p k _ ct w Hk).
  - done.
  - apply length_random_bytes.
  - done.
  - done.
  - apply base64_roundtrip.
  - rewrite length_app, length_random_bytes. lia.
Qed.

Lemma C4_envelope_length_witness :
  let P := Reference.platform in
  let k := Base64.encode (random_bytes P Reference.world0 32) in
  let p := js "дыня" in
  exists env iv ct,
    encrypt P p k Reference.world0 = (Ok env, consume Reference.world0 12) /\
    iv = random_bytes P Reference.world0 12 /\ length iv = 12%nat /\
    aes_gcm_encrypt P (random_bytes P Reference.world0 32) iv (TextEncoder_encode p) = Some ct /\
    length ct = (length (TextEncoder_encode p) + 16)%nat /\
    base64ToArrayBuffer env = Ok (iv ++ ct) /\
    length (iv ++ ct) = (12 + (length (TextEncoder_encode p) + 16))%nat.
Proof.
  intros P k p.
  apply (C4_envelope_length P ReferenceFacts.encrypts ReferenceFacts.tagged p k
           (mkKey (random_bytes P Reference.world0 32) false) Reference.world0).
  vm_compute. reflexivity.
Defined.

(** A text that is not a JSON document, once decrypted, stops
    [decryptObject] at [JSON.parse]. *)
Lemma decryptObject_rejects (P : Platform) (env k : jsstring) (key : CryptoKey)
    (combined pt : list byte) (w : World) :
  importKey P k w = (Ok key, w) ->
  base64ToArrayBuffer env = Ok combined ->
  aes_gcm_decrypt P (key_raw key) (take 12 combined) (drop 12 combined) = Some pt ->
  JSON_parse P (TextDecoder_decode pt) = None ->
  decryptObject P env k w = (Err SyntaxError, w).
Proof.
  intros Hk Hc Hpt Hp. rewrite base64ToArrayBuffer_decode in Hc.
  destruct (Base64.decode env) as [c|] eqn:Hd; [|done]. injection Hc as ->.
  unfold decryptObject.
  rewrite (bind_ok _ _ _ _ _ (decrypt_ok P env k key combined pt w Hk Hd Hpt)).
  by rewrite Hp.
Qed.

(** C6 (as amended). For every envelope and key such that authenticated
    decryption succeeds, with plaintext bytes [pt]: if [JSON.parse] rejects
    the text the decoder makes of [pt], [decryptObject] fails with the
    [SyntaxError] of [JSON.parse]; so it does, in particular, whenever [pt]
    is the UTF-8 encoding of a text without unpaired surrogate or leading
    U+FEFF and is not a JSON document.  That failure is not the error of a
    failed decryption, which reaches the caller of [decryptObject] as
    [decrypt] threw it. *)
Theorem C6_malformed_payload (P : Platform) (env k : jsstring) (key : CryptoKey)
    (combined pt : list byte) (w : World) :
  importKey P k w = (Ok key, w) ->
  base64ToArrayBuffer env = Ok combined ->
  aes_gcm_decrypt P (key_raw key) (take 12 combined) (drop 12 combined) = Some pt ->
  (JSON_parse P (TextDecoder_decode pt) = None ->
   decryptObject P env k w = (Err SyntaxError, w)) /\
  (forall s, Utf.well_formed s = true -> head s <> Some 0xFEFF ->
             pt = TextEncoder_encode s -> ~ json_document P pt ->
             decryptObject P env k w = (Err SyntaxError, w)) /\
  SyntaxError <> msg_decrypt /\
  forall env1 k1 w1 e w2,
    decrypt P env1 k1 w1 = (Err e, w2) ->
    e = msg_decrypt /\ decryptObject P env1 k1 w1 = (Err msg_decrypt, w2).
Proof.
  intros Hk Hc Hpt. split_and!.
  - by apply (decryptObject_rejects P env k key combined pt w).
  - intros s Hwf Hbom -> Hdoc.
    apply (decryptObject_rejects P env k key combined (TextEncoder_encode s) w); [done..|].
    rewrite text_roundtrip by done.
    destruct (JSON_parse P s) as [v|] eqn:Hp; [|done].
    destruct Hdoc. exists s. by rewrite Hp.
  - discriminate.
  - intros env1 k1 w1 e w2 He.
    pose proof (decrypt_err P env1 k1 e w1 w2 He) as ->. split; [done|].
    unfold decryptObject. by rewrite (bind_err _ _ _ _ _ He).
Qed.

(** The text [not json], encrypted by [encrypt], on the reference platform. *)
Lemma C6_malformed_payload_witness :
  let P := Reference.platform in
  let raw := random_bytes P Reference.world0 32 in
  let k := Base64.encode raw in
  let iv := random_bytes P Reference.world0 12 in
  let pt := TextEncoder_encode (js "not json") in
  let combined := iv ++ default [] (Reference.seal raw iv pt) in
  let env := Base64.encode combined in
  encrypt P (js "not json") k Reference.world0 = (Ok env, consume Reference.world0 12) /\
  decryptObject P env k Reference.world0 = (Err SyntaxError, Reference.world0).
Proof.
  intros P raw k iv pt combined env.
  split; [vm_compute; reflexivity|].
  assert (importKey P k Reference.world0 = (Ok (mkKey raw false), Reference.world0)) as Hk
    by (vm_compute; reflexivity).
  assert (aes_gcm_decrypt P raw (take 12 combined) (drop 12 combined) = Some pt) as Hpt
    by (vm_compute; reflexivity).
  destruct (C6_malformed_payload P env k (mkKey raw false) combined pt Reference.world0
              Hk (base64_roundtrip combined) Hpt) as [Hfail _].
  apply Hfail. vm_compute. reflexivity.
Defined.

(** C6 as stated fails on plaintext bytes that are not valid UTF-8: the
    three bytes 22 FF 22 are no JSON document, yet an envelope that decrypts
    to them makes [decryptObject] return the string U+FFFD. *)
Lemma C6_counterexample :
  let P := Reference.platform in
  let raw := random_bytes P Reference.world0 32 in
  let k := Base64.encode raw in
  let iv := random_bytes P Reference.world0 12 in
  let pt := [Byte.x22; Byte.xff; Byte.x22] in
  let combined := iv ++ default [] (Reference.seal raw iv pt) in
  let env := Base64.encode combined in
  importKey P k Reference.world0 = (Ok (mkKey raw false), Reference.world0) /\
  base64ToArrayBuffer env = Ok combined /\
  aes_gcm_decrypt P raw (take 12 combined) (drop 12 combined) = Some pt /\
  ~ json_document P pt /\
  decryptObject P env k Reference.world0 = (Ok (JStr [0xFFFD]), Reference.world0).
Proof.
  intros P raw k iv pt combined env. split_and!.
  - vm_compute. reflexivity.
  - apply base64_roundtrip.
  - vm_compute. reflexivity.
  - intros (s & Hwf & Henc & _).
    pose proof (encode_determines_text s Hwf) as Hs. rewrite Henc in Hs.
    assert (TextEncoder_encode s <> pt) as Hne; [|done].
    rewrite Hs. vm_compute. discriminate.
  - vm_compute. reflexivity.
Qed.

(** A leading byte order mark is dropped before parsing: the text U+FEFF
    [null] is rejected by [JSON.parse], its UTF-8 bytes are no JSON
    document, and [decryptObject] of its encryption returns [null]. *)
Lemma byte_order_mark_parsed :
  let P := Reference.platform in
  let k := Base64.encode (random_bytes P Reference.world0 32) in
  let text := 0xFEFF :: js "null" in
  JSON_parse P text = None /\
  ~ json_document P (TextEncoder_encode text) /\
  ((env ← encrypt P text k; decryptObject P env k) Reference.world0).1 = Ok JNull.
Proof.
  intros P k text. split_and!.
  - vm_compute. reflexivity.
  - intros (s & Hwf & Henc & Hp).
    pose proof (encode_determines_text s Hwf) as Hs. rewrite Henc in Hs.
    assert (s = text) as -> by (rewrite Hs; vm_compute; reflexivity).
    revert Hp. vm_compute. by intros [? [=]].
  - vm_compute. reflexivity.
Qed.

(** [deriveKeyFromSeed] reads nothing of the world and changes nothing in
    it: its result depends on the phrase alone. *)
Lemma deriveKeyFromSeed_pure (P : Platform) (phrase : jsstring) (w1 w2 : World) :
  (deriveKeyFromSeed P phrase w1).2 = w1 /\
  (deriveKeyFromSeed P phrase w1).1 = (deriveKeyFromSeed P phrase w2).1.
Proof.
  unfold deriveKeyFromSeed, subtle_importKey_PBKDF2, subtle_deriveBits. munfold.
  destruct (subtle_available P); [|done].
  by destruct (pbkdf2_deriveBits P _ _ _).
Qed.

(** C8. [deriveKeyFromSeed] is deterministic: two calls with the same
    phrase, in whatever state of the world, return the same base64 string,
    the encoding of the 32 bytes that PBKDF2 with SHA-256, 100000 iterations
    and the salt [sb_finance_salt_2024] derives from the phrase's UTF-8
    bytes. *)
Theorem C8_derivation_deterministic (P : Platform) :
  subtle_available P = true -> pbkdf2_derives P ->
  forall phrase w1 w2,
  exists bits,
    pbkdf2_deriveBits P
      (mkPbkdf2 (TextEncoder_encode (js "sb_finance_salt_2024")) 100000 (js "SHA-256"))
      (TextEncoder_encode phrase) 256 = Some bits /\
    length bits = 32%nat /\
    deriveKeyFromSeed P phrase w1 = (Ok (Base64.encode bits), w1) /\
    deriveKeyFromSeed P phrase w2 = (Ok (Base64.encode bits), w2) /\
    base64ToArrayBuffer (Base64.encode bits) = Ok bits.
Proof.
  intros Ha Hder phrase w1 w2.
  destruct (Hder seed_params (TextEncoder_encode phrase) 256) as (bits & Hb & Hlen);
    [done..|].
  exists bits. change (256 / 8) with 32 in Hlen.
  assert (forall w, deriveKeyFromSeed P phrase w = (Ok (Base64.encode bits), w)) as Hw.
  { intros w. unfold deriveKeyFromSeed, subtle_importKey_PBKDF2, subtle_deriveBits.
    munfold. rewrite Ha, Hb. by rewrite arrayBufferToBase64_encode. }
  split_and!; [exact Hb|lia|apply Hw..|apply base64_roundtrip].
Qed.

Lemma C8_derivation_deterministic_witness :
  let P := Reference.platform in
  let phrase := js "дыня банан вишня" in
  exists bits,
    pbkdf2_deriveBits P
      (mkPbkdf2 (TextEncoder_encode (js "sb_finance_salt_2024")) 100000 (js "SHA-256"))
      (TextEncoder_encode phrase) 256 = Some bits /\
    length bits = 32%nat /\
    deriveKeyFromSeed P phrase Reference.world0 = (Ok (Base64.encode bits), Reference.world0) /\
    deriveKeyFromSeed P phrase (consume Reference.world0 12)
    = (Ok (Base64.encode bits), consume Reference.world0 12) /\
    base64ToArrayBuffer (Base64.encode bits) = Ok bits.
Proof.
  intros P phrase.
  apply (C8_derivation_deterministic P eq_refl ReferenceFacts.derives).
Defined.

(** ** The key store *)

Section StorageFacts.

Context (P : Platform).
Import EncryptionStorage.

Lemma encode_nonempty (bs : list byte) : bs <> [] -> Base64.encode bs <> [].
Proof. by destruct bs as [|a [|b [|c bs]]]. Qed.

Lemma generated_key_nonempty k w w' : generateKey P w = (Ok k, w') -> k <> [].
Proof.
  intros Hg. destruct (generateKey_inv _ _ _ _ Hg) as (_ & -> & _).
  apply encode_nonempty. intros He.
  pose proof (length_random_bytes P w 32) as Hl. by rewrite He in Hl.
Qed.

(** A stored, non-empty key is returned and nothing is written or drawn. *)
Lemma getOrCreateKey_stored w k :
  localStorage w !! encryption_key = Some k -> k <> [] ->
  getOrCreateKey P w = (Ok k, w).
Proof.
  intros Hk Hne. unfold getOrCreateKey, localStorage_getItem. munfold.
  rewrite Hk. by rewrite bool_decide_eq_false_2.
Qed.

(** After a call that returned, the store holds the key returned. *)
Lemma getOrCreateKey_inv w k w' :
  getOrCreateKey P w = (Ok k, w') ->
  localStorage w' !! encryption_key = Some k /\ k <> [].
Proof.
  unfold getOrCreateKey, localStorage_getItem, localStorage_setItem. munfold.
  assert (forall w1, (let (r, w2) := generateKey P w in
            match r with
            | Ok a => (Ok a, mkWorld (<[encryption_key:=a]> (localStorage w2))
                                     (entropy_used w2) (random_used w2) (sent w2))
            | Err e => (Err e, w2)
            end) = (Ok k, w1) ->
          localStorage w1 !! encryption_key = Some k /\ k <> []) as Hgen.
  { intros w1. destruct (generateKey P w) as [[k1|e] w2] eqn:Hg; [|done].
    intros [= <- <-]. cbn [localStorage]. split; [apply lookup_insert_eq|].
    by apply (generated_key_nonempty k1 w w2). }
  destruct (localStorage w !! encryption_key) as [k0|] eqn:Hk.
  - destruct (decide (k0 = [])) as [->|Hne].
    + rewrite bool_decide_eq_true_2 by done. apply Hgen.
    + rewrite bool_decide_eq_false_2 by done. by intros [= <- <-].
  - apply Hgen.
Qed.

(** Where [crypto.subtle] is present the call returns. *)
Lemma getOrCreateKey_returns w :
  subtle_available P = true -> exists k w', getOrCreateKey P w = (Ok k, w').
Proof.
  intros Ha. unfold getOrCreateKey, localStorage_getItem, localStorage_setItem.
  munfold. destruct (localStorage w !! encryption_key) as [k0|].
  - destruct (bool_decide (k0 = [])); [|eauto].
    rewrite (generateKey_ok P w Ha). eauto.
  - rewrite (generateKey_ok P w Ha). eauto.
Qed.

(** The call returns when a key is stored or can be generated. *)
Lemma getOrCreateKey_resolves w :
  subtle_available P = true \/
  (exists k, localStorage w !! encryption_key = Some k /\ k <> []) ->
  exists k w', getOrCreateKey P w = (Ok k, w').
Proof.
  intros [Ha | (k & Hk & Hne)].
  - by apply getOrCreateKey_returns.
  - exists k, w. by apply getOrCreateKey_stored.
Qed.

(** It fails, and the world stays as it was, when neither is the case. *)
Lemma getOrCreateKey_fails w :
  subtle_available P = false ->
  (forall k, localStorage w !! encryption_key = Some k -> k = []) ->
  getOrCreateKey P w = (Err msg_generateKey, w).
Proof.
  intros Ha Hk.
  assert (generateKey P w = (Err msg_generateKey, w)) as Hg.
  { unfold generateKey, subtle_generateKey. munfold. by rewrite Ha. }
  unfold getOrCreateKey.
  rewrite (bind_ok _ _ w (localStorage w !! encryption_key) w) by done.
  destruct (localStorage w !! encryption_key) as [k0|] eqn:Hs.
  - rewrite (Hk k0 eq_refl). rewrite bool_decide_eq_true_2 by done.
    by rewrite (bind_err _ _ _ _ _ Hg).
  - by rewrite (bind_err _ _ _ _ _ Hg).
Qed.

(** A call that returned, then another: the same key, and nothing changes. *)
Lemma getOrCreateKey_twice w k w' :
  getOrCreateKey P w = (Ok k, w') -> getOrCreateKey P w' = (Ok k, w').
Proof.
  intros H1. destruct (getOrCreateKey_inv w k w' H1) as [Hs Hne].
  by apply getOrCreateKey_stored.
Qed.

End StorageFacts.

(** C5. Where [crypto.subtle] is present, [getOrCreateKey] returns a key;
    the next call returns the same key and leaves the world as it is (the
    store is not written, no random byte is drawn); so does any later call
    made while the key slot holds what the first call left there (no
    [clearKey], no [saveKey] in between).  A non-empty key found in the
    store is returned as it is and never replaced by a generated one. *)
Theorem C5_getOrCreateKey_idempotent (P : Platform) (w : World) :
  subtle_available P = true ->
  exists k1 w1,
    EncryptionStorage.getOrCreateKey P w = (Ok k1, w1) /\
    EncryptionStorage.getOrCreateKey P w1 = (Ok k1, w1) /\
    (forall w2,
        localStorage w2 !! EncryptionStorage.encryption_key
        = localStorage w1 !! EncryptionStorage.encryption_key ->
        EncryptionStorage.getOrCreateKey P w2 = (Ok k1, w2)) /\
    (forall w0 k,
        localStorage w0 !! EncryptionStorage.encryption_key = Some k -> k <> [] ->
        EncryptionStorage.getOrCreateKey P w0 = (Ok k, w0)).
Proof.
  intros Ha. destruct (getOrCreateKey_returns P w Ha) as (k1 & w1 & H1).
  destruct (getOrCreateKey_inv P w k1 w1 H1) as [Hs Hne].
  exists k1, w1. split_and!.
  - done.
  - by apply getOrCreateKey_twice with w.
  - intros w2 Hw2. apply getOrCreateKey_stored; [congruence|done].
  - intros w0 k. apply getOrCreateKey_stored.
Qed.

(** On a fresh page the first call generates and stores a key and the second
    returns it. *)
Lemma C5_getOrCreateKey_idempotent_witness :
  exists k1 w1,
    EncryptionStorage.getOrCreateKey Reference.platform Reference.world0 = (Ok k1, w1) /\
    EncryptionStorage.getOrCreateKey Reference.platform w1 = (Ok k1, w1) /\
    localStorage w1 !! EncryptionStorage.encryption_key = Some k1.
Proof.
  destruct (C5_getOrCreateKey_idempotent Reference.platform Reference.world0 eq_refl)
    as (k1 & w1 & H1 & H2 & _).
  exists k1, w1. split_and!; [done..|].
  by destruct (getOrCreateKey_inv Reference.platform Reference.world0 k1 w1 H1).
Defined.

(** The key survives the saving of a recovery phrase; it does not survive
    [clearKey]: the next call draws a new one. *)
Example key_slot_lifecycle :
  let P := Reference.platform in
  let run1 := EncryptionStorage.getOrCreateKey P Reference.world0 in
  let w2 := (EncryptionStorage.saveSeedPhrase (js "дыня банан") run1.2).2 in
  let w3 := (EncryptionStorage.clearKey w2).2 in
  (EncryptionStorage.getOrCreateKey P w2).1 = run1.1 /\
  (EncryptionStorage.getOrCreateKey P w3).1 <> run1.1 /\
  (EncryptionStorage.getSeedPhrase w3).1 = Ok None.
Proof.
  intros P run1 w2 w3. split_and!.
  - vm_compute. reflexivity.
  - vm_compute. discriminate.
  - vm_compute. reflexivity.
Qed.

(** ** The recovery phrase *)

Section SeedFacts.

Context (P : Platform).


(** Three words stand twice in the list: 29 different words in 32 entries. *)
Example words_repeated :
  words !! 4%nat = words !! 28%nat /\ words !! 5%nat = words !! 29%nat /\
  words !! 7%nat = words !! 31%nat /\ length (remove_dups words) = 29%nat.
Proof. split_and!; vm_compute; reflexivity. Qed.





(** The word picked by the [i]-th next draw. *)
Lemma seed_loop_eq n selected w :
  seed_loop P n selected w
  = (Ok (selected
         ++ map (fun i => array_get words (random_index (next_random P w i))) (seq 0 n)),
     spend w n).
Proof.
  revert selected w. induction n as [|n IH]; intros selected w.
  - cbn [seed_loop seq map]. rewrite app_nil_r. unfold spend. munfold.
    destruct w as [ls eu ru st]. cbn. do 2 f_equal. lia.
  - cbn [seed_loop]. unfold Math_random. munfold. rewrite IH.
    cbn [seq map]. rewrite <- app_assoc. cbn [app]. f_equal.
    + do 3 f_equal. rewrite <- seq_shift, map_map. apply map_ext. intros i.
      unfold next_random, spend. cbn [random_used]. do 3 f_equal. lia.
    + unfold spend. cbn. f_equal. lia.
Qed.



End SeedFacts.



(** ** The interception layer *)

Section FetchFacts.

Context (P : Platform).

Lemma stateless_ret {A} (a : A) : stateless (mret a).
Proof. done. Qed.

Lemma stateless_throw {A} (e : exn) : stateless (@throw A e).
Proof. done. Qed.

Lemma stateless_lift {A} (r : Result A) : stateless (lift r).
Proof. done. Qed.

Lemma stateless_bind {A B} (m : M A) (f : A -> M B) :
  stateless m -> (forall a, stateless (f a)) -> stateless (x ← m; f x).
Proof.
  intros Hm Hf w. specialize (Hm w). munfold.
  destruct (m w) as [[a|e] w1]; cbn in Hm; subst w1; [apply Hf|done].
Qed.

Lemma stateless_decryptObject env k : stateless (decryptObject P env k).
Proof.
  unfold decryptObject. apply stateless_bind.
  - intros w. apply decrypt_world.
  - intros text. destruct (JSON_parse P text);
      [apply stateless_ret|apply stateless_throw].
Qed.

Lemma stateless_Response_json r : stateless (Response_json P r).
Proof.
  unfold Response_json. destruct (bodyUsed r); [apply stateless_throw|].
  destruct (JSON_parse P _); [apply stateless_ret|apply stateless_throw].
Qed.

(** The response half neither writes to the store nor sends anything. *)
Lemma stateless_decrypt_response r key : stateless (decrypt_response P r key).
Proof.
  unfold decrypt_response. destruct (json_typed r); [|apply stateless_ret].
  apply stateless_bind; [apply stateless_Response_json|]. intros [data r'].
  apply stateless_bind; [apply stateless_lift|]. intros enc.
  apply stateless_bind.
  { destruct (truthy_opt enc); [apply stateless_lift|apply stateless_ret]. }
  intros [d|]; [|apply stateless_ret].
  destruct (truthy d); [|apply stateless_ret].
  apply stateless_bind; [apply stateless_decryptObject|]. intros v.
  apply stateless_lift.
Qed.

(** An enveloped response whose decryption fails: the failure is the
    result. *)
Lemma decrypt_response_fails r d key w e w' :
  enveloped P r d ->
  decryptObject P (ToString P d) key w = (Err e, w') ->
  decrypt_response P r key w = (Err e, w').
Proof.
  intros (Hj & Hu & data & enc & Hp & He & Hte & Hd & Htd) Hfail.
  unfold decrypt_response, Response_json. munfold.
  rewrite Hj, Hu, Hp, He. cbn [truthy_opt]. rewrite Hte, Hd, Htd.
  by rewrite Hfail.
Qed.

(** A JSON response not in the transport form: the caller gets the very
    response whose body [fetch] has read. *)
Lemma decrypt_response_plain r data key w :
  plain_json P r data ->
  decrypt_response P r key w = (Ok (consumed r), w).
Proof.
  intros (Hj & Hu & Hp & enc & He & Hcase).
  unfold decrypt_response, Response_json. munfold.
  rewrite Hj, Hu, Hp, He.
  destruct Hcase as [Hf | (d & Hd & Hf)].
  - rewrite Hf. destruct enc as [v|]; [|done]. cbn in Hf. by rewrite Hf.
  - destruct (truthy_opt enc) eqn:Hte.
    + rewrite Hd. destruct d as [v|]; [|done]. cbn in Hf. by rewrite Hf.
    + destruct enc as [v|]; [|done]. cbn in Hte. by rewrite Hte.
Qed.

Lemma consumed_unreadable r w : Response_json P (consumed r) w = (Err TypeError, w).
Proof. done. Qed.

Lemma getOrCreateKey_sent w key w1 :
  EncryptionStorage.getOrCreateKey P w = (Ok key, w1) -> sent w1 = sent w.
Proof.
  unfold EncryptionStorage.getOrCreateKey, localStorage_getItem, localStorage_setItem.
  munfold. repeat case_match; intros Heq; inversion Heq; subst; try done.
  all: match goal with
       | H : generateKey P _ = (Ok _, _) |- _ =>
           destruct (generateKey_inv _ _ _ _ H) as (_ & _ & ->)
       end; done.
Qed.

(** What the request half returns: the options themselves, or the options
    with the body in the transport form when the body was a non-empty
    string. *)
Lemma encrypt_request_inv options key w options' w' :
  encrypt_request P options key w = (Ok options', w') ->
  (options' = options /\ w' = w) \/
  exists s encrypted,
    body options = BodyString s /\ s <> [] /\
    options' = set_encrypted_body P options encrypted.
Proof.
  unfold encrypt_request.
  destruct (body options) as [|s|t] eqn:Hb.
  - intros [= <- <-]. by left.
  - destruct (decide (s = [])) as [->|Hne].
    { rewrite bool_decide_eq_true_2 by done. intros [= <- <-]. by left. }
    rewrite bool_decide_eq_false_2 by done. intros H. right. exists s.
    revert H. unfold encryptObject. munfold.
    repeat case_match; intros Heq;
      repeat match goal with
             | H : (_, _) = (_, _) |- _ => inversion H; clear H; subst
             end;
      by eexists.
  - intros [= <- <-]. by left.
Qed.

End FetchFacts.

(** C2. For a call of [fetch] with encryption enabled that reaches a
    readable response in the transport form ([encrypted] and [data] both
    truthy under a JSON content type): if [decryptObject] of its [data]
    fails, [fetch] fails to the caller with that same failure, so it returns
    no response at all. *)
Theorem C2_decryption_failure_surfaces (P : Platform) (self : EncryptedFetch)
    (url : jsstring) (options options' : RequestInit) (key : jsstring)
    (response : Response) (d : json) (e : exn) (w w1 w2 w3 w4 : World) :
  encryptionEnabled self = true ->
  EncryptionStorage.getOrCreateKey P w = (Ok key, w1) ->
  encrypt_request P options key w1 = (Ok options', w2) ->
  native_fetch P url options' w2 = (Ok response, w3) ->
  enveloped P response d ->
  decryptObject P (ToString P d) key w3 = (Err e, w4) ->
  fetch P self url options w = (Err e, w4) /\
  forall r w', fetch P self url options w <> (Ok r, w').
Proof.
  intros Hen Hk Hreq Hnet Henv Hfail.
  assert (fetch P self url options w = (Err e, w4)) as Hf.
  { unfold fetch. rewrite Hen. cbn [negb].
    rewrite (bind_ok _ _ _ _ _ Hk), (bind_ok _ _ _ _ _ Hreq), (bind_ok _ _ _ _ _ Hnet).
    by apply (decrypt_response_fails P response d). }
  split; [done|]. intros r w'. by rewrite Hf.
Qed.

(** The endpoint [/api/tampered] of the reference platform answers with an
    envelope that no key opens. *)
Lemma C2_decryption_failure_surfaces_witness :
  let P := Reference.platform in
  let options := mkInit BodyAbsent None [] in
  (fetch P EncryptedFetch_new (js "/api/tampered") options Reference.world0).1
  = Err msg_decrypt.
Proof.
  intros P options.
  set (key := Base64.encode (random_bytes P Reference.world0 32)).
  set (w1 := (EncryptionStorage.getOrCreateKey P Reference.world0).2).
  set (w3 := logged w1 (js "/api/tampered") options).
  set (response := mkResponse 200 (js "OK") Reference.json_headers
         (TextEncoder_encode
            (jsq "{'encrypted':true,'data':'AAAAAAAAAAAAAAAAAAAAAAAAAAAAAAAAAAAAAAAA'}"))
         false).
  set (d := JStr (js "AAAAAAAAAAAAAAAAAAAAAAAAAAAAAAAAAAAAAAAA")).
  assert (enveloped P response d) as Henv.
  { split_and!; [vm_compute; reflexivity..|].
    exists (JObj [(js "encrypted", JBool true); (js "data", d)]), (JBool true).
    split_and!; vm_compute; reflexivity. }
  assert (EncryptionStorage.getOrCreateKey P Reference.world0 = (Ok key, w1)) as Hk
    by (vm_compute; reflexivity).
  assert (native_fetch P (js "/api/tampered") options w1 = (Ok response, w3)) as Hnet
    by (vm_compute; reflexivity).
  assert (decryptObject P (ToString P d) key w3 = (Err msg_decrypt, w3)) as Hfail
    by (vm_compute; reflexivity).
  destruct (C2_decryption_failure_surfaces P EncryptedFetch_new (js "/api/tampered")
              options options key response d msg_decrypt
              Reference.world0 w1 w1 w3 w3 eq_refl Hk eq_refl Hnet Henv Hfail)
    as [Hf _].
  by rewrite Hf.
Defined.

(** For a JSON response that is not in the transport form, [fetch] returns
    the response it has itself read: reading that body fails, where
    reading the body of the response as the network returned it gives the
    parsed document. *)
Lemma passthrough_body_consumed (P : Platform) (self : EncryptedFetch)
    (url : jsstring) (options options' : RequestInit) (key : jsstring)
    (response : Response) (data : json) (w w1 w2 w3 wr : World) :
  encryptionEnabled self = true ->
  EncryptionStorage.getOrCreateKey P w = (Ok key, w1) ->
  encrypt_request P options key w1 = (Ok options', w2) ->
  native_fetch P url options' w2 = (Ok response, w3) ->
  plain_json P response data ->
  fetch P self url options w = (Ok (consumed response), w3) /\
  Response_json P response wr = (Ok (data, consumed response), wr) /\
  Response_json P (consumed response) wr = (Err TypeError, wr).
Proof.
  intros Hen Hk Hreq Hnet Hplain. split_and!.
  - unfold fetch. rewrite Hen. cbn [negb].
    rewrite (bind_ok _ _ _ _ _ Hk), (bind_ok _ _ _ _ _ Hreq), (bind_ok _ _ _ _ _ Hnet).
    by apply (decrypt_response_plain P response data).
  - destruct Hplain as (_ & Hu & Hp & _). unfold Response_json. by rewrite Hu, Hp.
  - done.
Qed.

(** C3, on the code.  The endpoint [/api/balance] answers with the JSON
    document [{balance: 42}] under a JSON content type.  Through the native
    [fetch] the caller reads that document; through [fetch] of
    [EncryptedFetch] the caller receives the same response with its body
    already used, and reading it fails with a [TypeError]. *)
Lemma C3_passthrough_body_consumed :
  let P := Reference.platform in
  let url := js "/api/balance" in
  let options := mkInit BodyAbsent None [] in
  let balance := JObj [(js "balance", JNum (Reference.number_of_Z false 42))] in
  let original := mkResponse 200 (js "OK") Reference.json_headers
                    (TextEncoder_encode (jsq "{'balance':42}")) false in
  let w := logged Reference.world0 url options in
  native_fetch P url options Reference.world0 = (Ok original, w) /\
  (Response_json P original w).1 = Ok (balance, consumed original) /\
  (fetch P EncryptedFetch_new url options Reference.world0).1 = Ok (consumed original) /\
  (Response_json P (consumed original) w).1 = Err TypeError.
Proof.
  intros P url options balance original w.
  split_and!; [vm_compute; reflexivity..|reflexivity].
Qed.

(** A JSON response whose document is [null] does not reach the caller at
    all: reading [data.encrypted] throws. *)
Lemma C3_null_document_rejected :
  (fetch Reference.platform EncryptedFetch_new (js "/api/null")
         (mkInit BodyAbsent None []) Reference.world0).1
  = Err TypeError.
Proof. vm_compute. reflexivity. Qed.

(** With no key stored and none to be had, [fetch] fails with the error of
    [generateKey] before anything is sent, whatever the body. *)
Lemma unresolved_key_sends_nothing (P : Platform) (self : EncryptedFetch)
    (url : jsstring) (options : RequestInit) (w : World) :
  encryptionEnabled self = true ->
  subtle_available P = false ->
  (forall k, localStorage w !! EncryptionStorage.encryption_key = Some k -> k = []) ->
  fetch P self url options w = (Err msg_generateKey, w).
Proof.
  intros Hen Ha Hk. unfold fetch. rewrite Hen. cbn [negb].
  by rewrite (bind_err _ _ _ _ _ (getOrCreateKey_fails P w Ha Hk)).
Qed.

(** C10 (as amended). For a call of [fetch] with encryption enabled whose
    body is absent or is not a string, when the key resolves (a non-empty
    key is stored, or [crypto.subtle] is present to generate one): the
    request half returns the options as given and raises nothing, the
    native [fetch] is handed those very options (they are what the log of
    requests gains), and the result is that of the response half on the
    network's answer.  Whenever the request half changes the options, the
    body was a non-empty string and the new body is the transport form. *)
Theorem C10_non_string_body_unchanged (P : Platform) (self : EncryptedFetch)
    (url : jsstring) (options : RequestInit) (w : World) :
  encryptionEnabled self = true ->
  (subtle_available P = true \/
   exists k, localStorage w !! EncryptionStorage.encryption_key = Some k /\ k <> []) ->
  (forall s, body options <> BodyString s) ->
  exists key w1,
    EncryptionStorage.getOrCreateKey P w = (Ok key, w1) /\
    encrypt_request P options key w1 = (Ok options, w1) /\
    fetch P self url options w
    = (response ← native_fetch P url options; decrypt_response P response key) w1 /\
    sent (fetch P self url options w).2 = sent w ++ [(url, options)] /\
    (forall opts k wa opts' wb,
        encrypt_request P opts k wa = (Ok opts', wb) -> opts' <> opts ->
        exists s encrypted,
          body opts = BodyString s /\ s <> [] /\
          body opts' = BodyString (JSON_stringify P (transport_form encrypted))).
Proof.
  intros Hen Hres Hbody.
  destruct (getOrCreateKey_resolves P w Hres) as (key & w1 & Hk).
  exists key, w1.
  assert (encrypt_request P options key w1 = (Ok options, w1)) as Hreq.
  { unfold encrypt_request. destruct (body options) as [|s|t] eqn:Hb; [done| |done].
    by destruct (Hbody s). }
  assert (fetch P self url options w
          = (response ← native_fetch P url options;
             decrypt_response P response key) w1) as Hf.
  { unfold fetch. rewrite Hen. cbn [negb].
    by rewrite (bind_ok _ _ _ _ _ Hk), (bind_ok _ _ _ _ _ Hreq). }
  split_and!; [done|done|done| |].
  - rewrite Hf. unfold native_fetch. munfold.
    destruct (network P (sent w1) url options) as [response|e].
    + rewrite stateless_decrypt_response. cbn [logged sent].
      by rewrite (getOrCreateKey_sent P w key w1).
    + cbn [snd logged sent]. by rewrite (getOrCreateKey_sent P w key w1).
  - intros opts k wa opts' wb Hr Hne.
    destruct (encrypt_request_inv P opts k wa opts' wb Hr)
      as [[-> _] | (s & encrypted & Hs & Hnes & ->)]; [done|].
    exists s, encrypted. split_and!; [done..|].
    unfold set_encrypted_body. cbn [body headers]. by destruct (headers opts).
Qed.

Lemma C10_non_string_body_unchanged_witness :
  let P := Reference.platform in
  let url := js "/api/balance" in
  let options := mkInit (BodyOther 7) None [(js "method", js "POST")] in
  sent (fetch P EncryptedFetch_new url options Reference.world0).2 = [(url, options)].
Proof.
  intros P url options.
  assert (forall s, body options <> BodyString s) as Hb by (intros s; discriminate).
  destruct (C10_non_string_body_unchanged P EncryptedFetch_new url options
              Reference.world0 eq_refl (or_introl eq_refl) Hb)
    as (key & w1 & _ & _ & _ & Hsent & _).
  exact Hsent.
Defined.

(** C10 as stated fails outside a secure context with nothing stored: the
    body is not a string, yet the key cannot be generated, [fetch] fails
    with the error of [generateKey] and no request is sent. *)
Lemma C10_counterexample :
  let P := Reference.insecure in
  let options := mkInit (BodyOther 7) None [] in
  encryptionEnabled EncryptedFetch_new = true /\
  (forall s, body options <> BodyString s) /\
  fetch P EncryptedFetch_new (js "/api/balance") options Reference.world0
  = (Err msg_generateKey, Reference.world0) /\
  sent Reference.world0 = [].
Proof.
  intros P options. split_and!.
  - reflexivity.
  - intros s. discriminate.
  - vm_compute. reflexivity.
  - reflexivity.
Qed.

(** The same with no body at all. *)
Example no_subtle_no_request :
  fetch Reference.insecure EncryptedFetch_new (js "/api/balance")
        (mkInit BodyAbsent None []) Reference.world0
  = (Err msg_generateKey, Reference.world0).
Proof. vm_compute. reflexivity. Qed.

(** * Further properties of the code *)

(** ** [CryptoManager]: failures, bounds and compositions *)

Lemma try_catch_throw_err {A} (m : M A) (e0 e : exn) (w w' : World) :
  try_catch m (fun _ => throw e0) w = (Err e, w') -> e = e0.
Proof.
  unfold try_catch, throw. destruct (m w) as [[a|e1] w1]; [done|].
  by intros [= <- _].
Qed.

Lemma try_catch_bind_err {A B} (m : M A) (f : A -> M B) (h : exn -> M B)
    (w : World) (e : exn) (w' : World) :
  m w = (Err e, w') -> try_catch (x ← m; f x) h w = h e w'.
Proof. intros H. unfold try_catch. munfold. by rewrite H. Qed.

(** X1. Whatever goes wrong inside [generateKey], [importKey], [encrypt] or
    [decrypt], the caller sees the one [Error] of that method's [catch]
    block: the cause (a malformed key, a platform failure, a failed tag
    check) cannot be told from the error. *)
Theorem catch_blocks_hide_cause (P : Platform) :
  (forall w e w', generateKey P w = (Err e, w') -> e = msg_generateKey) /\
  (forall k w e w', importKey P k w = (Err e, w') -> e = msg_importKey) /\
  (forall p k w e w', encrypt P p k w = (Err e, w') -> e = msg_encrypt) /\
  (forall env k w e w', decrypt P env k w = (Err e, w') -> e = msg_decrypt).
Proof.
  split_and!.
  - intros w e w'. apply try_catch_throw_err.
  - intros k w e w'. apply try_catch_throw_err.
  - intros p k w e w'. apply try_catch_throw_err.
  - intros env k w e w'. apply try_catch_throw_err.
Qed.

(** X2. [importKey] returns a key exactly when [crypto.subtle] is present,
    the string is base64 and its bytes are a raw AES key the platform
    accepts; the key it returns holds those bytes and is not extractable,
    and the world is left as it was. *)
Theorem importKey_accepts (P : Platform) (k : jsstring) (key : CryptoKey) (w w' : World) :
  importKey P k w = (Ok key, w') <->
  w' = w /\ subtle_available P = true /\
  exists raw, base64ToArrayBuffer k = Ok raw /\ aes_key_ok P raw = true /\
              key = mkKey raw false.
Proof.
  split.
  - intros H. destruct (importKey_inv P k key w w' H) as (-> & Ha & raw & Hd & Hk & ->).
    split_and!; [done..|]. exists raw. by rewrite base64ToArrayBuffer_decode, Hd.
  - intros (-> & Ha & raw & Hd & Hk & ->).
    rewrite base64ToArrayBuffer_decode in Hd.
    destruct (Base64.decode k) as [raw'|] eqn:Hd'; [|done].
    injection Hd as <-. by apply importKey_ok.
Qed.

Section EngineFacts.

Context (P : Platform).

Lemma importKey_rejected k e0 w w0 :
  importKey P k w = (Err e0, w0) -> importKey P k w = (Err msg_importKey, w).
Proof.
  intros H. pose proof (importKey_world P k w) as Hw. rewrite H in Hw. cbn in Hw.
  subst w0. pose proof (try_catch_throw_err _ _ _ _ _ H) as ->. exact H.
Qed.

Lemma encrypt_rejected p k e0 w w0 :
  importKey P k w = (Err e0, w0) -> encrypt P p k w = (Err msg_encrypt, w).
Proof.
  intros H. apply importKey_rejected in H.
  unfold encrypt. rewrite (try_catch_bind_err _ _ _ _ _ _ H). reflexivity.
Qed.

Lemma decrypt_rejected env k e0 w w0 :
  importKey P k w = (Err e0, w0) -> decrypt P env k w = (Err msg_decrypt, w).
Proof.
  intros H. apply importKey_rejected in H.
  unfold decrypt. rewrite (try_catch_bind_err _ _ _ _ _ _ H). reflexivity.
Qed.

(** The cipher refuses after the key was accepted: the IV is drawn all the
    same. *)
Lemma encrypt_refused p k key w :
  importKey P k w = (Ok key, w) ->
  aes_gcm_encrypt P (key_raw key) (random_bytes P w 12) (TextEncoder_encode p) = None ->
  encrypt P p k w = (Err msg_encrypt, consume w 12).
Proof.
  intros Hk Hct. destruct (importKey_inv _ _ _ _ _ Hk) as (_ & Ha & _).
  unfold encrypt, generateIV, getRandomValues, subtle_encrypt, ivLength.
  munfold. rewrite Hk, Ha, Hct. reflexivity.
Qed.

Lemma decrypt_inv env k text w w' :
  decrypt P env k w = (Ok text, w') ->
  w' = w /\
  exists key combined pt,
    importKey P k w = (Ok key, w) /\
    Base64.decode env = Some combined /\
    aes_gcm_decrypt P (key_raw key) (take 12 combined) (drop 12 combined) = Some pt /\
    text = TextDecoder_decode pt.
Proof.
  intros H. pose proof (decrypt_world P env k w) as Hw. rewrite H in Hw. cbn in Hw.
  subst w'. split; [done|]. revert H.
  unfold decrypt, subtle_decrypt, ivLength. rewrite base64ToArrayBuffer_decode.
  pose proof (importKey_world P k w) as Hw. munfold.
  destruct (importKey P k w) as [[key|e] w1]; cbn in Hw; subst w1; [|done].
  destruct (Base64.decode env) as [combined|]; [|done].
  destruct (subtle_available P); [|done].
  destruct (aes_gcm_decrypt P _ _ _) as [pt|] eqn:Hpt; [|done].
  intros [= <-]. by exists key, combined, pt.
Qed.

(** [decrypt] either returns, or fails with its own error; the world is as
    it was in both cases. *)
Lemma decrypt_cases env k w :
  (exists text, decrypt P env k w = (Ok text, w)) \/
  decrypt P env k w = (Err msg_decrypt, w).
Proof.
  pose proof (decrypt_world P env k w) as Hw.
  destruct (decrypt P env k w) as [[text|e] w1] eqn:H; cbn in Hw; subst w1.
  - left. by exists text.
  - right. by rewrite (decrypt_err P _ _ _ _ _ H).
Qed.

Lemma decryptObject_err env k w :
  decrypt P env k w = (Err msg_decrypt, w) ->
  decryptObject P env k w = (Err msg_decrypt, w).
Proof. intros H. unfold decryptObject. by rewrite (bind_err _ _ _ _ _ H). Qed.

End EngineFacts.

(** X3. With a key string that [importKey] rejects, [encrypt] fails before
    drawing an IV (the world, the random stream included, is as it was) and
    [decrypt] fails too, each with the error of its own [catch]. *)
Theorem rejected_key_fails (P : Platform) (p env k : jsstring) (e0 : exn) (w w0 : World) :
  importKey P k w = (Err e0, w0) ->
  encrypt P p k w = (Err msg_encrypt, w) /\
  decrypt P env k w = (Err msg_decrypt, w).
Proof.
  intros H. split.
  - exact (encrypt_rejected P p k e0 w w0 H).
  - exact (decrypt_rejected P env k e0 w w0 H).
Qed.

Lemma rejected_key_fails_witness :
  importKey Reference.platform (js "not a key") Reference.world0
  = (Err msg_importKey, Reference.world0) /\
  encrypt Reference.platform (js "text") (js "not a key") Reference.world0
  = (Err msg_encrypt, Reference.world0) /\
  decrypt Reference.platform (js "AAAA") (js "not a key") Reference.world0
  = (Err msg_decrypt, Reference.world0).
Proof.
  assert (importKey Reference.platform (js "not a key") Reference.world0
          = (Err msg_importKey, Reference.world0)) as H
    by (vm_compute; reflexivity).
  split; [exact H|].
  exact (rejected_key_fails Reference.platform (js "text") (js "AAAA") (js "not a key")
           msg_importKey Reference.world0 Reference.world0 H).
Defined.

(** X4. What [encrypt] does to the world: it writes nothing to the store,
    sends nothing and takes nothing from [Math.random]; when it returns it
    has drawn exactly the 12 bytes that lead the envelope; when it fails it
    has drawn those 12 bytes or none. *)
Theorem encrypt_draws_one_iv (P : Platform) (p k : jsstring) (w : World) :
  localStorage (encrypt P p k w).2 = localStorage w /\
  sent (encrypt P p k w).2 = sent w /\
  random_used (encrypt P p k w).2 = random_used w /\
  (forall env, (encrypt P p k w).1 = Ok env ->
     entropy_used (encrypt P p k w).2 = entropy_used w + 12 /\
     exists combined, base64ToArrayBuffer env = Ok combined /\
                      take 12 combined = random_bytes P w 12) /\
  (forall e, (encrypt P p k w).1 = Err e ->
     e = msg_encrypt /\
     (entropy_used (encrypt P p k w).2 = entropy_used w \/
      entropy_used (encrypt P p k w).2 = entropy_used w + 12)).
Proof.
  pose proof (importKey_world P k w) as Hw.
  destruct (importKey P k w) as [[key|e0] w1] eqn:Hk; cbn in Hw; subst w1.
  - destruct (aes_gcm_encrypt P (key_raw key) (random_bytes P w 12) (TextEncoder_encode p))
      as [ct|] eqn:Hct.
    + rewrite (encrypt_ok P p k key ct w Hk Hct).
      cbn [fst snd consume localStorage sent random_used entropy_used].
      split_and!; [reflexivity..| |intros e [=]].
      intros env Heq.
      assert (env = Base64.encode (random_bytes P w 12 ++ ct)) as -> by congruence.
      split; [reflexivity|].
      exists (random_bytes P w 12 ++ ct). split; [apply base64_roundtrip|].
      apply take_app_length'. symmetry. apply length_random_bytes.
    + rewrite (encrypt_refused P p k key w Hk Hct).
      cbn [fst snd consume localStorage sent random_used entropy_used].
      split_and!; [reflexivity..|intros env [=]|].
      intros e [= <-]. split; [reflexivity|right; reflexivity].
  - rewrite (encrypt_rejected P p k e0 w w Hk). cbn [fst snd].
    split_and!; [reflexivity..|intros env [=]|].
    intros e [= <-]. split; [reflexivity|left; reflexivity].
Qed.

(** The reference cipher refuses data that cannot hold its tag. *)
Lemma reference_needs_tag : aes_gcm_needs_tag Reference.platform.
Proof.
  intros k iv data Hlen. cbn [aes_gcm_decrypt Reference.platform].
  unfold Reference.open. by rewrite bool_decide_eq_true_2.
Qed.

(** X5. An envelope that decodes to fewer than 28 bytes (the 12 of the IV
    and the 16 of the tag), the empty string included, is never decrypted:
    [decrypt] and [decryptObject] fail with the error of [decrypt], and the
    world is as it was. *)
Theorem short_envelope_fails (P : Platform) (env k : jsstring) (combined : list byte)
    (w : World) :
  aes_gcm_needs_tag P ->
  base64ToArrayBuffer env = Ok combined -> (length combined < 28)%nat ->
  decrypt P env k w = (Err msg_decrypt, w) /\
  decryptObject P env k w = (Err msg_decrypt, w).
Proof.
  intros Htag Hd Hlen.
  assert (decrypt P env k w = (Err msg_decrypt, w)) as H.
  { destruct (decrypt_cases P env k w) as [[text Hok]|Herr]; [|exact Herr].
    exfalso. destruct (decrypt_inv P env k text w w Hok)
      as (_ & key & combined' & pt & _ & Hd' & Hpt & _).
    rewrite base64ToArrayBuffer_decode, Hd' in Hd. injection Hd as ->.
    rewrite Htag in Hpt; [discriminate|]. rewrite length_drop. lia. }
  split; [exact H|]. exact (decryptObject_err P env k w H).
Qed.

Lemma short_envelope_fails_witness :
  decrypt Reference.platform [] (Base64.encode (random_bytes Reference.platform Reference.world0 32))
          Reference.world0 = (Err msg_decrypt, Reference.world0) /\
  decryptObject Reference.platform []
          (Base64.encode (random_bytes Reference.platform Reference.world0 32))
          Reference.world0 = (Err msg_decrypt, Reference.world0).
Proof.
  apply (short_envelope_fails Reference.platform []
           (Base64.encode (random_bytes Reference.platform Reference.world0 32))
           [] Reference.world0 reference_needs_tag).
  - vm_compute. reflexivity.
  - cbn. lia.
Defined.

(** X6. [decryptObject] after [encryptObject]: under a key that [importKey]
    accepts, an object whose JSON text holds no unpaired surrogate and does
    not begin with U+FEFF comes back as [JSON.parse] reads that text; the
    one IV drawn by [encryptObject] is the only change to the world. *)
Theorem object_roundtrip (P : Platform) :
  aes_gcm_encrypts P -> aes_gcm_inverts P ->
  forall (obj : json) (k : jsstring) (key : CryptoKey) (w : World),
    importKey P k w = (Ok key, w) ->
    Utf.well_formed (JSON_stringify P obj) = true ->
    head (JSON_stringify P obj) <> Some 0xFEFF ->
    exists env,
      encryptObject P obj k w = (Ok env, consume w 12) /\
      decryptObject P env k (consume w 12)
      = (match JSON_parse P (JSON_stringify P obj) with
         | Some v => Ok v
         | None => Err SyntaxError
         end, consume w 12).
Proof.
  intros Henc Hinv obj k key w Hk Hwf Hbom.
  destruct (decrypt_after_encrypt P (JSON_stringify P obj) k key w Henc Hinv Hk)
    as (env & He & Hd).
  rewrite (text_roundtrip _ Hwf Hbom) in Hd.
  exists env. split; [exact He|].
  unfold decryptObject. rewrite (bind_ok _ _ _ _ _ Hd).
  destruct (JSON_parse P (JSON_stringify P obj)); reflexivity.
Qed.

Lemma object_roundtrip_witness :
  exists env,
    encryptObject Reference.platform
      (JObj [(js "amount", JNum (Reference.number_of_Z false 100))])
      (Base64.encode (random_bytes Reference.platform Reference.world0 32))
      Reference.world0 = (Ok env, consume Reference.world0 12) /\
    decryptObject Reference.platform env
      (Base64.encode (random_bytes Reference.platform Reference.world0 32))
      (consume Reference.world0 12)
    = (match JSON_parse Reference.platform
               (JSON_stringify Reference.platform
                  (JObj [(js "amount", JNum (Reference.number_of_Z false 100))])) with
       | Some v => Ok v
       | None => Err SyntaxError
       end, consume Reference.world0 12).
Proof.
  apply (object_roundtrip Reference.platform ReferenceFacts.encrypts ReferenceFacts.inverts
           (JObj [(js "amount", JNum (Reference.number_of_Z false 100))])
           (Base64.encode (random_bytes Reference.platform Reference.world0 32))
           (mkKey (random_bytes Reference.platform Reference.world0 32) false)
           Reference.world0).
  - vm_compute. reflexivity.
  - vm_compute. reflexivity.
  - vm_compute. discriminate.
Defined.

(** ** Keys: their shape and where they come from *)

Lemma encode_length_exact (bs : list byte) :
  length (Base64.encode bs) = (4 * ((length bs + 2) / 3))%nat.
Proof.
  induction bs as [|a|a b|a b c bs IH] using list_ind3; [reflexivity..|].
  change (length (Base64.encode (a :: b :: c :: bs)))
    with (S (S (S (S (length (Base64.encode bs)))))).
  rewrite IH.
  change (length (a :: b :: c :: bs) + 2)%nat with (1 * 3 + (length bs + 2))%nat.
  rewrite Nat.div_add_l by lia. lia.
Qed.

Lemma encode_alphabet (bs : list byte) :
  Forall (fun c => Base64.valid c = true \/ c = Base64.pad) (Base64.encode bs).
Proof.
  rewrite Base64Facts.encode_split. apply Forall_app. split.
  - eapply Forall_impl; [apply Base64Facts.unpadded_valid|]. intros c Hc. by left.
  - destruct (Base64Facts.padding_cases bs) as [->|[->| ->]];
      repeat constructor; by right.
Qed.

(** X7. [arrayBufferToBase64] returns for every buffer: four characters
    for every three bytes started, each a character of the base64 alphabet
    or the padding [=]; the string is empty only for the empty buffer. *)
Theorem arrayBufferToBase64_shape (buffer : list byte) :
  exists s, arrayBufferToBase64 buffer = Ok s /\
    length s = (4 * ((length buffer + 2) / 3))%nat /\
    Forall (fun c => Base64.valid c = true \/ c = Base64.pad) s /\
    (s = [] <-> buffer = []).
Proof.
  exists (Base64.encode buffer). split_and!.
  - apply arrayBufferToBase64_encode.
  - apply encode_length_exact.
  - apply encode_alphabet.
  - split; [|by intros ->].
    intros He. destruct buffer as [|a buffer]; [reflexivity|].
    exfalso. by apply (encode_nonempty (a :: buffer)).
Qed.

(** X8. Where [isSupported()] holds, [generateKey] returns a string of 44
    characters, the base64 of the next 32 bytes of the secure random
    stream, and those 32 bytes are the only thing it takes from the world;
    a platform that accepts 256-bit keys imports it, in whatever state. *)
Theorem generateKey_shape (P : Platform) (w : World) :
  isSupported P = true ->
  exists k,
    generateKey P w = (Ok k, consume w 32) /\
    length k = 44%nat /\
    base64ToArrayBuffer k = Ok (random_bytes P w 32) /\
    (aes_256_accepted P ->
     forall w1, importKey P k w1 = (Ok (mkKey (random_bytes P w 32) false), w1)).
Proof.
  intros Ha. exists (Base64.encode (random_bytes P w 32)). split_and!.
  - by apply generateKey_ok.
  - by rewrite encode_length_exact, length_random_bytes.
  - apply base64_roundtrip.
  - intros Hacc w1. apply importKey_ok; [exact Ha|apply Base64Facts.decode_encode|].
    apply Hacc, length_random_bytes.
Qed.

Lemma generateKey_shape_witness :
  exists k,
    generateKey Reference.platform Reference.world0 = (Ok k, consume Reference.world0 32) /\
    length k = 44%nat /\
    base64ToArrayBuffer k = Ok (random_bytes Reference.platform Reference.world0 32) /\
    (aes_256_accepted Reference.platform ->
     forall w1, importKey Reference.platform k w1
                = (Ok (mkKey (random_bytes Reference.platform Reference.world0 32) false), w1)).
Proof. exact (generateKey_shape Reference.platform Reference.world0 eq_refl). Defined.

(** X9. Where [isSupported()] holds and the platform derives PBKDF2 bits
    and accepts 256-bit keys, [deriveKeyFromSeed] returns, for every phrase
    and without touching the world, a string of 44 characters that
    [importKey] accepts as a 32-byte key; text encrypted under it decrypts
    under it. *)
Theorem derived_key_imports (P : Platform) :
  isSupported P = true -> pbkdf2_derives P -> aes_256_accepted P ->
  forall (phrase : jsstring) (w : World),
  exists k raw,
    deriveKeyFromSeed P phrase w = (Ok k, w) /\
    length k = 44%nat /\ length raw = 32%nat /\
    importKey P k w = (Ok (mkKey raw false), w) /\
    (aes_gcm_encrypts P -> aes_gcm_inverts P ->
     forall p, Utf.well_formed p = true -> head p <> Some 0xFEFF ->
     exists env, encrypt P p k w = (Ok env, consume w 12) /\
                 decrypt P env k (consume w 12) = (Ok p, consume w 12)).
Proof.
  intros Ha Hder Hacc phrase w.
  destruct (Hder seed_params (TextEncoder_encode phrase) 256) as (bits & Hb & Hlen);
    [reflexivity..|].
  change (256 / 8) with 32 in Hlen.
  assert (length bits = 32%nat) as Hl by lia.
  assert (importKey P (Base64.encode bits) w = (Ok (mkKey bits false), w)) as Hk.
  { apply importKey_ok; [exact Ha|apply Base64Facts.decode_encode|by apply Hacc]. }
  exists (Base64.encode bits), bits. split_and!.
  - unfold deriveKeyFromSeed, subtle_importKey_PBKDF2, subtle_deriveBits.
    unfold isSupported in Ha. munfold. rewrite Ha, Hb.
    by rewrite arrayBufferToBase64_encode.
  - by rewrite encode_length_exact, Hl.
  - exact Hl.
  - exact Hk.
  - intros Henc Hinv p Hwf Hbom.
    destruct (decrypt_after_encrypt P p _ _ w Henc Hinv Hk) as (env & He & Hd).
    rewrite (text_roundtrip _ Hwf Hbom) in Hd. by exists env.
Qed.

Lemma derived_key_imports_witness :
  exists k raw,
    deriveKeyFromSeed Reference.platform (js "дыня банан вишня") Reference.world0
    = (Ok k, Reference.world0) /\
    length k = 44%nat /\ length raw = 32%nat /\
    importKey Reference.platform k Reference.world0
    = (Ok (mkKey raw false), Reference.world0).
Proof.
  destruct (derived_key_imports Reference.platform eq_refl ReferenceFacts.derives
              ReferenceFacts.accepted (js "дыня банан вишня") Reference.world0)
    as (k & raw & H1 & H2 & H3 & H4 & _).
  exists k, raw. auto.
Defined.



(** ** [EncryptionStorage]: the two slots *)

Lemma slots_differ : EncryptionStorage.encryption_key <> EncryptionStorage.seed_phrase.
Proof. intros H. apply (f_equal length) in H. vm_compute in H. discriminate H. Qed.

Lemma generateKey_cases (P : Platform) (w : World) :
  generateKey P w
  = if subtle_available P
    then (Ok (Base64.encode (random_bytes P w 32)), consume w 32)
    else (Err msg_generateKey, w).
Proof.
  destruct (subtle_available P) eqn:Ha; [by apply generateKey_ok|].
  unfold generateKey, subtle_generateKey. munfold. rewrite Ha. reflexivity.
Qed.

(** What [getOrCreateKey] does, by the content of the key slot. *)
Lemma getOrCreateKey_cases (P : Platform) (w : World) :
  EncryptionStorage.getOrCreateKey P w
  = match localStorage w !! EncryptionStorage.encryption_key with
    | Some (c :: k) => (Ok (c :: k), w)
    | _ =>
        if subtle_available P
        then (Ok (Base64.encode (random_bytes P w 32)),
              mkWorld (<[EncryptionStorage.encryption_key :=
                           Base64.encode (random_bytes P w 32)]> (localStorage w))
                      (entropy_used w + 32) (random_used w) (sent w))
        else (Err msg_generateKey, w)
    end.
Proof.
  unfold EncryptionStorage.getOrCreateKey.
  rewrite (bind_ok _ _ w (localStorage w !! EncryptionStorage.encryption_key) w)
    by reflexivity.
  pose proof (generateKey_cases P w) as Hg.
  destruct (localStorage w !! EncryptionStorage.encryption_key) as [[|c k]|].
  - rewrite bool_decide_eq_true_2 by reflexivity.
    destruct (subtle_available P).
    + rewrite (bind_ok _ _ _ _ _ Hg). reflexivity.
    + rewrite (bind_err _ _ _ _ _ Hg). reflexivity.
  - rewrite bool_decide_eq_false_2 by discriminate. reflexivity.
  - destruct (subtle_available P).
    + rewrite (bind_ok _ _ _ _ _ Hg). reflexivity.
    + rewrite (bind_err _ _ _ _ _ Hg). reflexivity.
Qed.

(** X11. After [saveKey k], [hasKey()] answers [true] whatever [k] is; a
    non-empty [k] is what [getOrCreateKey] returns, with nothing written
    or drawn; an empty [k] counts as no key for [getOrCreateKey], which
    replaces it by a generated one. *)
Theorem saveKey_then_getOrCreateKey (P : Platform) (k : jsstring) (w : World) :
  EncryptionStorage.hasKey (EncryptionStorage.saveKey k w).2
  = (Ok true, (EncryptionStorage.saveKey k w).2) /\
  (k <> [] ->
   EncryptionStorage.getOrCreateKey P (EncryptionStorage.saveKey k w).2
   = (Ok k, (EncryptionStorage.saveKey k w).2)) /\
  (k = [] -> isSupported P = true ->
   exists k' w',
     EncryptionStorage.getOrCreateKey P (EncryptionStorage.saveKey k w).2 = (Ok k', w') /\
     k' = Base64.encode (random_bytes P w 32) /\ k' <> [] /\
     localStorage w' !! EncryptionStorage.encryption_key = Some k' /\
     entropy_used w' = entropy_used w + 32).
Proof.
  assert (localStorage (EncryptionStorage.saveKey k w).2
            !! EncryptionStorage.encryption_key = Some k) as Hs.
  { unfold EncryptionStorage.saveKey, localStorage_setItem. cbn [snd localStorage].
    apply lookup_insert_eq. }
  split_and!.
  - unfold EncryptionStorage.hasKey, localStorage_getItem. munfold. rewrite Hs.
    reflexivity.
  - intros Hne. by apply getOrCreateKey_stored.
  - intros -> Ha. unfold isSupported in Ha.
    rewrite getOrCreateKey_cases, Hs, Ha. do 2 eexists.
    split; [reflexivity|]. split_and!.
    + reflexivity.
    + apply encode_nonempty. intros He.
      pose proof (length_random_bytes P w 32) as Hl.
      change (random_bytes P (EncryptionStorage.saveKey [] w).2 32)
        with (random_bytes P w 32) in He.
      by rewrite He in Hl.
    + cbn [localStorage]. apply lookup_insert_eq.
    + reflexivity.
Qed.

(** X12. [clearKey] empties both slots and nothing else: afterwards
    [hasKey()] answers [false] and [getSeedPhrase()] [null], every other
    item of the store and the rest of the world are as they were, and the
    next [getOrCreateKey], where [isSupported()] holds, generates a key
    from the random stream. *)
Theorem clearKey_forgets (P : Platform) (w : World) :
  (EncryptionStorage.clearKey w).1 = Ok tt /\
  EncryptionStorage.hasKey (EncryptionStorage.clearKey w).2
  = (Ok false, (EncryptionStorage.clearKey w).2) /\
  EncryptionStorage.getSeedPhrase (EncryptionStorage.clearKey w).2
  = (Ok None, (EncryptionStorage.clearKey w).2) /\
  (forall name, name <> EncryptionStorage.encryption_key ->
                name <> EncryptionStorage.seed_phrase ->
     localStorage (EncryptionStorage.clearKey w).2 !! name = localStorage w !! name) /\
  entropy_used (EncryptionStorage.clearKey w).2 = entropy_used w /\
  random_used (EncryptionStorage.clearKey w).2 = random_used w /\
  sent (EncryptionStorage.clearKey w).2 = sent w /\
  (isSupported P = true ->
   (EncryptionStorage.getOrCreateKey P (EncryptionStorage.clearKey w).2).1
   = Ok (Base64.encode (random_bytes P w 32))).
Proof.
  assert (localStorage (EncryptionStorage.clearKey w).2
          = delete EncryptionStorage.seed_phrase
              (delete EncryptionStorage.encryption_key (localStorage w))) as Hs
    by reflexivity.
  assert (localStorage (EncryptionStorage.clearKey w).2
            !! EncryptionStorage.encryption_key = None) as Hk.
  { rewrite Hs. rewrite lookup_delete_ne by (intros H; by apply slots_differ).
    apply lookup_delete_eq. }
  split_and!.
  - reflexivity.
  - unfold EncryptionStorage.hasKey, localStorage_getItem. munfold. rewrite Hk.
    reflexivity.
  - unfold EncryptionStorage.getSeedPhrase, localStorage_getItem.
    rewrite Hs, lookup_delete_eq. reflexivity.
  - intros name H1 H2. rewrite Hs. by rewrite !lookup_delete_ne.
  - reflexivity.
  - reflexivity.
  - reflexivity.
  - unfold isSupported. intros Ha. rewrite getOrCreateKey_cases, Hk, Ha. reflexivity.
Qed.

(** X13. The two slots do not meet: saving a recovery phrase changes
    neither what [getOrCreateKey] returns nor what [hasKey()] answers, and
    [getSeedPhrase()] then gives the phrase saved; [getOrCreateKey], for its
    part, leaves the phrase slot alone.  The stored key is never derived
    from the stored phrase. *)
Theorem seed_phrase_apart_from_key (P : Platform) (phrase : jsstring) (w : World) :
  (EncryptionStorage.getOrCreateKey P (EncryptionStorage.saveSeedPhrase phrase w).2).1
  = (EncryptionStorage.getOrCreateKey P w).1 /\
  (EncryptionStorage.hasKey (EncryptionStorage.saveSeedPhrase phrase w).2).1
  = (EncryptionStorage.hasKey w).1 /\
  (EncryptionStorage.getSeedPhrase (EncryptionStorage.saveSeedPhrase phrase w).2).1
  = Ok (Some phrase) /\
  (EncryptionStorage.getSeedPhrase (EncryptionStorage.getOrCreateKey P w).2).1
  = (EncryptionStorage.getSeedPhrase w).1.
Proof.
  assert (localStorage (EncryptionStorage.saveSeedPhrase phrase w).2
            !! EncryptionStorage.encryption_key
          = localStorage w !! EncryptionStorage.encryption_key) as Hk.
  { unfold EncryptionStorage.saveSeedPhrase, localStorage_setItem.
    cbn [snd localStorage]. apply lookup_insert_ne. intros H. by apply slots_differ. }
  split_and!.
  - rewrite !getOrCreateKey_cases, Hk.
    destruct (localStorage w !! EncryptionStorage.encryption_key) as [[|c k]|];
      destruct (subtle_available P); reflexivity.
  - unfold EncryptionStorage.hasKey, localStorage_getItem. munfold. cbn [fst].
    by rewrite Hk.
  - unfold EncryptionStorage.getSeedPhrase, EncryptionStorage.saveSeedPhrase,
      localStorage_getItem, localStorage_setItem. cbn [fst snd localStorage].
    by rewrite lookup_insert_eq.
  - rewrite getOrCreateKey_cases.
    unfold EncryptionStorage.getSeedPhrase, localStorage_getItem.
    destruct (localStorage w !! EncryptionStorage.encryption_key) as [[|c k]|];
      destruct (subtle_available P); cbn [fst snd localStorage]; try reflexivity.
    all: f_equal; apply lookup_insert_ne, slots_differ.
Qed.

(** ** The recovery phrase and the random sources *)

(** X14. [generateSeedPhrase] always returns, [crypto.subtle] present or
    not; it takes twelve results of [Math.random] and nothing from the
    secure random stream, the store or the network; and the phrase is
    settled by the position in the [Math.random] stream alone: from two
    worlds at the same position it returns the same phrase. *)
Theorem generateSeedPhrase_total (P : Platform) (w : World) :
  exists phrase,
    generateSeedPhrase P w = (Ok phrase, spend w 12) /\
    random_used (spend w 12) = random_used w + 12 /\
    entropy_used (spend w 12) = entropy_used w /\
    localStorage (spend w 12) = localStorage w /\
    sent (spend w 12) = sent w /\
    (forall w2, random_used w2 = random_used w ->
                (generateSeedPhrase P w2).1 = Ok phrase).
Proof.
  assert (forall w1, generateSeedPhrase P w1
            = (Ok (join (js " ")
                     (map (default [])
                        (map (fun i => array_get words (random_index (next_random P w1 i)))
                             (seq 0 12)))), spend w1 12)) as Hrun.
  { intros w1. unfold generateSeedPhrase.
    rewrite (bind_ok _ _ _ _ _ (seed_loop_eq P 12 [] w1)). reflexivity. }
  eexists. split; [apply Hrun|]. split_and!; [reflexivity..|].
  intros w2 Hpos. rewrite Hrun. cbn [fst]. unfold next_random. by rewrite Hpos.
Qed.

(** ** [EncryptedFetch]: what goes out and what comes back *)

Section TrafficFacts.

Context (P : Platform).

Lemma encrypt_world p k w :
  (encrypt P p k w).2 = w \/ (encrypt P p k w).2 = consume w 12.
Proof.
  pose proof (importKey_world P k w) as Hw.
  destruct (importKey P k w) as [[key|e0] w1] eqn:Hk; cbn in Hw; subst w1.
  - destruct (aes_gcm_encrypt P (key_raw key) (random_bytes P w 12) (TextEncoder_encode p))
      as [ct|] eqn:Hct.
    + rewrite (encrypt_ok P p k key ct w Hk Hct). by right.
    + rewrite (encrypt_refused P p k key w Hk Hct). by right.
  - rewrite (encrypt_rejected P p k e0 w w Hk). by left.
Qed.

Lemma sent_encrypt p k w : sent (encrypt P p k w).2 = sent w.
Proof. by destruct (encrypt_world p k w) as [-> | ->]. Qed.

Lemma sent_getOrCreateKey w : sent (EncryptionStorage.getOrCreateKey P w).2 = sent w.
Proof.
  rewrite getOrCreateKey_cases.
  destruct (localStorage w !! EncryptionStorage.encryption_key) as [[|c k]|];
    destruct (subtle_available P); reflexivity.
Qed.

Lemma sent_encrypt_request options key w :
  sent (encrypt_request P options key w).2 = sent w.
Proof.
  unfold encrypt_request. destruct (body options) as [|s|t]; [reflexivity| |reflexivity].
  destruct (bool_decide (s = [])); [reflexivity|].
  unfold try_catch, encryptObject. destruct (JSON_parse P s) as [v|].
  - munfold. pose proof (sent_encrypt (JSON_stringify P v) key w) as H1.
    destruct (encrypt P (JSON_stringify P v) key w) as [[env|e] w1]; cbn [snd] in *;
      [exact H1|].
    pose proof (sent_encrypt s key w1) as H2.
    destruct (encrypt P s key w1) as [[env|e'] w2]; cbn [snd] in *; congruence.
  - munfold. pose proof (sent_encrypt s key w) as H2.
    destruct (encrypt P s key w) as [[env|e'] w2]; cbn [snd] in *; congruence.
Qed.

Lemma native_fetch_world url options w :
  (native_fetch P url options w).2 = logged w url options.
Proof. reflexivity. Qed.

(** The first three steps of [fetch] done, what is left is the response
    half. *)
Lemma fetch_steps self url options options' key r w w1 w2 w3 :
  encryptionEnabled self = true ->
  EncryptionStorage.getOrCreateKey P w = (Ok key, w1) ->
  encrypt_request P options key w1 = (Ok options', w2) ->
  native_fetch P url options' w2 = (Ok r, w3) ->
  fetch P self url options w = decrypt_response P r key w3 /\
  sent w3 = sent w ++ [(url, options')].
Proof.
  intros Hen Hk Hreq Hnet. split.
  - unfold fetch. rewrite Hen. cbn [negb].
    by rewrite (bind_ok _ _ _ _ _ Hk), (bind_ok _ _ _ _ _ Hreq), (bind_ok _ _ _ _ _ Hnet).
  - pose proof (sent_getOrCreateKey w) as H1. rewrite Hk in H1. cbn [snd] in H1.
    pose proof (sent_encrypt_request options key w1) as H2. rewrite Hreq in H2.
    cbn [snd] in H2.
    pose proof (native_fetch_world url options' w2) as H3. rewrite Hnet in H3.
    cbn [snd] in H3. subst w3. cbn [logged sent]. congruence.
Qed.

End TrafficFacts.

(** X15. In every case [fetch] hands at most one request to the network,
    to the URL it was given.  When it hands none, it has failed; when it
    hands one, its options are the caller's own or, for a non-empty string
    body, the caller's with the body in the transport form. *)
Theorem fetch_sends_at_most_once (P : Platform) (self : EncryptedFetch)
    (url : jsstring) (options : RequestInit) (w : World) :
  (sent (fetch P self url options w).2 = sent w /\
   exists e, (fetch P self url options w).1 = Err e) \/
  exists options',
    sent (fetch P self url options w).2 = sent w ++ [(url, options')] /\
    (options' = options \/
     exists s encrypted, body options = BodyString s /\ s <> [] /\
                         options' = set_encrypted_body P options encrypted).
Proof.
  unfold fetch. destruct (encryptionEnabled self); cbn [negb].
  2:{ right. exists options. split; [reflexivity|by left]. }
  pose proof (sent_getOrCreateKey P w) as H1.
  destruct (EncryptionStorage.getOrCreateKey P w) as [[key|e] w1] eqn:Hk; cbn [snd] in H1.
  2:{ left. rewrite (bind_err _ _ _ _ _ Hk). split; [exact H1|by exists e]. }
  rewrite (bind_ok _ _ _ _ _ Hk).
  pose proof (sent_encrypt_request P options key w1) as H2.
  destruct (encrypt_request P options key w1) as [[options'|e] w2] eqn:Hreq;
    cbn [snd] in H2.
  2:{ left. rewrite (bind_err _ _ _ _ _ Hreq). cbn [fst snd].
      split; [congruence|by exists e]. }
  rewrite (bind_ok _ _ _ _ _ Hreq). right. exists options'. split.
  - destruct (native_fetch P url options' w2) as [[r|e] w3] eqn:Hnet.
    + pose proof (native_fetch_world P url options' w2) as H3. rewrite Hnet in H3.
      cbn [snd] in H3. rewrite (bind_ok _ _ _ _ _ Hnet).
      rewrite (stateless_decrypt_response P r key w3). subst w3. cbn [logged sent].
      by rewrite H2, H1.
    + pose proof (native_fetch_world P url options' w2) as H3. rewrite Hnet in H3.
      cbn [snd] in H3. rewrite (bind_err _ _ _ _ _ Hnet). cbn [snd]. subst w3.
      cbn [logged sent]. by rewrite H2, H1.
  - destruct (encrypt_request_inv P _ _ _ _ _ Hreq) as [[-> _]|(s & encrypted & H)].
    + by left.
    + right. by exists s, encrypted.
Qed.







(** X19. A response that is not labelled as JSON comes back as the network
    returned it, its body unread: for such responses [fetch] is the native
    [fetch]. *)
Theorem non_json_response_untouched (P : Platform) (self : EncryptedFetch)
    (url : jsstring) (options options' : RequestInit) (key : jsstring)
    (r : Response) (w w1 w2 w3 : World) :
  encryptionEnabled self = true ->
  EncryptionStorage.getOrCreateKey P w = (Ok key, w1) ->
  encrypt_request P options key w1 = (Ok options', w2) ->
  native_fetch P url options' w2 = (Ok r, w3) ->
  json_typed r = false ->
  fetch P self url options w = native_fetch P url options' w2 /\
  sent w3 = sent w ++ [(url, options')].
Proof.
  intros Hen Hk Hreq Hnet Hj.
  destruct (fetch_steps P self url options options' key r w w1 w2 w3 Hen Hk Hreq Hnet)
    as [-> Hsent].
  split; [|exact Hsent]. rewrite Hnet. unfold decrypt_response. by rewrite Hj.
Qed.

Lemma non_json_response_untouched_witness :
  let P := Reference.platform in
  let options := mkInit BodyAbsent None [] in
  let w1 := (EncryptionStorage.getOrCreateKey P Reference.world0).2 in
  fetch P EncryptedFetch_new (js "/missing") options Reference.world0
  = native_fetch P (js "/missing") options w1.
Proof.
  intros P options w1.
  refine (proj1 (non_json_response_untouched P EncryptedFetch_new (js "/missing")
            options options (Base64.encode (random_bytes P Reference.world0 32))
            (mkResponse 404 (js "Not Found") [(js "Content-Type", js "text/plain")]
               (TextEncoder_encode (js "not found")) false)
            Reference.world0 w1 w1 (logged w1 (js "/missing") options)
            eq_refl _ eq_refl _ _));
    vm_compute; reflexivity.
Defined.

(** X20. The length of an envelope: under a key that [importKey] accepts,
    [encrypt] returns a string of [4 * ceil((12 + n + 16) / 3)] characters,
    [n] being the number of UTF-8 bytes of the plaintext; no envelope is
    shorter than 40 characters. *)
Theorem envelope_string_length (P : Platform) :
  aes_gcm_encrypts P -> aes_gcm_tagged P ->
  forall (p k : jsstring) (key : CryptoKey) (w : World),
    importKey P k w = (Ok key, w) ->
    exists env,
      encrypt P p k w = (Ok env, consume w 12) /\
      length env = (4 * ((length (TextEncoder_encode p) + 30) / 3))%nat /\
      (40 <= length env)%nat.
Proof.
  intros Henc Htag p k key w Hk.
  destruct (importKey_inv _ _ _ _ _ Hk) as (_ & Ha & raw & Hd & Hok & ->).
  destruct (Henc raw (random_bytes P w 12) (TextEncoder_encode p)) as [ct Hct];
    [exact Hok|apply length_random_bytes|].
  pose proof (Htag _ _ _ _ Hct) as Hlen.
  exists (Base64.encode (random_bytes P w 12 ++ ct)).
  assert (length (Base64.encode (random_bytes P w 12 ++ ct))
          = (4 * ((length (TextEncoder_encode p) + 30) / 3))%nat) as Hl.
  { rewrite encode_length_exact, length_app, length_random_bytes, Hlen.
    do 2 f_equal. lia. }
  split_and!.
  - by apply (encrypt_ok P p k _ ct w Hk).
  - exact Hl.
  - rewrite Hl.
    pose proof (Nat.Div0.div_le_mono 30 (length (TextEncoder_encode p) + 30) 3) as Hm.
    change (30 / 3)%nat with 10%nat in Hm. lia.
Qed.

Lemma envelope_string_length_witness :
  exists env,
    encrypt Reference.platform (js "дыня")
      (Base64.encode (random_bytes Reference.platform Reference.world0 32))
      Reference.world0 = (Ok env, consume Reference.world0 12) /\
    length env = 48%nat.
Proof.
  destruct (envelope_string_length Reference.platform
              ReferenceFacts.encrypts ReferenceFacts.tagged (js "дыня")
              (Base64.encode (random_bytes Reference.platform Reference.world0 32))
              (mkKey (random_bytes Reference.platform Reference.world0 32) false)
              Reference.world0) as (env & H1 & H2 & _).
  - vm_compute. reflexivity.
  - exists env. split; [exact H1|]. rewrite H2. vm_compute. reflexivity.
Defined.
